(** * Cross-fitted one-step estimators of the [generalizing_IFs] notebooks

    A shallow embedding of the computational cells of

    - [k-fold_conditional_expectation.ipynb]   (module [KFoldCE]),
    - [conditional_expectation_tutorial.ipynb] (module [TutorialCE]),
    - [generalising_IFs_autograd_tutorial.ipynb] (module [Entropy]),

    together with the properties their specification states about them.

    Conventions of the embedding.

    - numpy/torch [float64] scalars are idealised as exact rationals
      ([Qc], canonical fractions with Leibniz equality): no rounding, no
      [inf], no [nan].  Where numpy would produce [inf] (a division by a
      zero float) the model stops with [DivideByZero].
    - Python exceptions are values of [exn]; code that can raise lives in
      the [result] monad.
    - numpy's global [RandomState] is threaded explicitly ([rng]).
    - Library calls (numpy, scikit-learn, torch) are either modelled after
      their documented behaviour ([Np.unique], [Sk.KFold_split], autograd's
      [backward]) or kept abstract as section variables (regressors,
      kernel density estimators, the logarithm, the random generator). *)

From Stdlib Require Import QArith Qcanon Qround ZArith Arith List Bool Lia Permutation Sorted.
From Stdlib Require Qcabs.
Import ListNotations.

Open Scope Qc_scope.

(* ================================================================== *)
(** * Python results and exceptions *)
(* ================================================================== *)

Inductive exn : Type :=
| IndexError      (* "index 0 is out of bounds for axis 0 with size 0" *)
| ValueError      (* shape mismatch, bad fold count *)
| AttributeError  (* a method missing on a Python object *)
| DivideByZero.   (* numpy's "divide by zero encountered" condition *)

Inductive result (A : Type) : Type :=
| Ok (a : A)
| Raise (e : exn).

Arguments Ok {A} a.
Arguments Raise {A} e.

Definition bind {A B : Type} (c : result A) (k : A -> result B) : result B :=
  match c with
  | Ok a => k a
  | Raise e => Raise e
  end.

Notation "x <- c ;; k" := (bind c (fun x => k))
  (at level 61, c at next level, right associativity).
Notation "' pat <- c ;; k" := (bind c (fun x => match x with pat => k end))
  (at level 61, pat pattern, c at next level, right associativity).

Definition result_map {A B : Type} (f : A -> B) (c : result A) : result B :=
  x <- c ;; Ok (f x).

(** What is left of a result when the exception label is dropped. *)
Definition value_of {A : Type} (c : result A) : option A :=
  match c with
  | Ok a => Some a
  | Raise _ => None
  end.

(** [for x in xs: acc = body(acc, x)], stopping at the first exception. *)
Fixpoint for_each {A S : Type} (body : S -> A -> result S) (xs : list A) (acc : S)
  : result S :=
  match xs with
  | [] => Ok acc
  | x :: xs' => acc' <- body acc x ;; for_each body xs' acc'
  end.

(** [[f(x) for x in xs]], stopping at the first exception. *)
Fixpoint map_result {A B : Type} (f : A -> result B) (xs : list A) : result (list B) :=
  match xs with
  | [] => Ok []
  | x :: xs' => y <- f x ;; ys <- map_result f xs' ;; Ok (y :: ys)
  end.

(* ================================================================== *)
(** * numpy *)
(* ================================================================== *)

Module Np.

(** A row of a 2-d float array. *)
Definition row : Type := list Qc.

Definition of_nat (n : nat) : Qc := Q2Qc (inject_Z (Z.of_nat n)).

(** [a.sum()] *)
Definition sum (a : list Qc) : Qc := fold_right Qcplus 0 a.

(** [a.mean()]: the sum over the number of entries.  (On an empty array
    numpy answers [nan]; the total division of [Qc] answers [0].) *)
Definition mean (a : list Qc) : Qc := sum a / of_nat (length a).

(** [np.dot(x, beta)] for two vectors. *)
Fixpoint dot (x beta : list Qc) : Qc :=
  match x, beta with
  | xi :: x', bi :: beta' => xi * bi + dot x' beta'
  | _, _ => 0
  end.

(** [a / b] on floats: [b = 0.0] is numpy's divide-by-zero condition. *)
Definition divide (a b : Qc) : result Qc :=
  if Qc_eq_dec b 0 then Raise DivideByZero else Ok (a / b).

(** [(c == x).all()] for two rows of the same width. *)
Fixpoint row_eqb (c x : row) : bool :=
  match c, x with
  | [], [] => true
  | ci :: c', xi :: x' => (if Qc_eq_dec ci xi then true else false) && row_eqb c' x'
  | _, _ => false
  end.

(** Lexicographic order on rows, the order of [np.unique(..., axis=0)]. *)
Fixpoint row_compare (a b : row) : comparison :=
  match a, b with
  | [], [] => Eq
  | [], _ :: _ => Lt
  | _ :: _, [] => Gt
  | ai :: a', bi :: b' =>
      match ai ?= bi with
      | Eq => row_compare a' b'
      | c => c
      end
  end.

(** One step of [np.unique(X, axis=0, return_counts=True)]: the table is
    kept sorted and duplicate-free, with the multiplicity of every row. *)
Fixpoint unique_insert (x : row) (t : list (row * nat)) : list (row * nat) :=
  match t with
  | [] => [(x, 1%nat)]
  | (c, n) :: t' =>
      match row_compare x c with
      | Lt => (x, 1%nat) :: (c, n) :: t'
      | Eq => (c, S n) :: t'
      | Gt => (c, n) :: unique_insert x t'
      end
  end.

Definition unique_table (X : list row) : list (row * nat) :=
  fold_right unique_insert [] X.

(** [cats, counts = np.unique(X, axis=0, return_counts=True)] *)
Definition unique (X : list row) : list row * list nat :=
  let t := unique_table X in (map fst t, map snd t).

(** [np.where(mask)[0]]: the positions holding [True], counted from [i]. *)
Fixpoint where_from (i : nat) (mask : list bool) : list nat :=
  match mask with
  | [] => []
  | b :: mask' => if b then i :: where_from (S i) mask' else where_from (S i) mask'
  end.

Definition where_ (mask : list bool) : list nat := where_from 0 mask.

(** [a[i]] *)
Definition item {A : Type} (a : list A) (i : nat) : result A :=
  match nth_error a i with
  | Some v => Ok v
  | None => Raise IndexError
  end.

(** [a[idx]] with an integer index array. *)
Definition take {A : Type} (a : list A) (idx : list nat) : result (list A) :=
  map_result (item a) idx.

(** [a[mask]] with a boolean mask of the length of [a]. *)
Fixpoint compress {A : Type} (mask : list bool) (a : list A) : list A :=
  match mask, a with
  | b :: mask', v :: a' => if b then v :: compress mask' a' else compress mask' a'
  | _, _ => []
  end.

(** [np.arange(n)] *)
Definition arange (n : nat) : list nat := seq 0 n.

End Np.

(** numpy's global [RandomState], the generator behind [np.random.seed],
    [np.random.binomial], [np.random.randn] and, through scikit-learn's
    [check_random_state(None)], behind every estimator or splitter built
    with [random_state=None].  Each draw returns its value and the next
    state; seeding replaces the state by one that depends on the seed
    alone. *)
Record RandomState : Type := {
  rng : Type;
  seed_state : Z -> rng;                          (* state after np.random.seed(s) *)
  binomial : nat -> rng -> list nat * rng;        (* np.random.binomial(1, 0.5, N) *)
  randn : nat -> rng -> list Qc * rng;            (* np.random.randn(N) *)
  shuffle : list nat -> rng -> list nat * rng     (* RandomState.shuffle(indices) *)
}.

(* ================================================================== *)
(** * scikit-learn: [KFold] *)
(* ================================================================== *)

Module Sk.

(** [fold_sizes = np.full(n_splits, n_samples // n_splits);
     fold_sizes[: n_samples % n_splits] += 1] *)
Definition fold_sizes (n_samples n_splits : nat) : list nat :=
  map (fun i => if (i <? n_samples mod n_splits)%nat
                then (n_samples / n_splits + 1)%nat
                else (n_samples / n_splits)%nat)
      (seq 0 n_splits).

(** [a[start:stop]] *)
Definition slice {A : Type} (a : list A) (start stop : nat) : list A :=
  firstn (stop - start) (skipn start a).

(** [_iter_test_indices]: consecutive chunks of the (shuffled) indices,
    [current] being the running offset. *)
Fixpoint iter_test_indices (indices : list nat) (current : nat) (sizes : list nat)
  : list (list nat) :=
  match sizes with
  | [] => []
  | fold_size :: sizes' =>
      slice indices current (current + fold_size)
      :: iter_test_indices indices (current + fold_size) sizes'
  end.

(** [test_mask = zeros(n, bool); test_mask[test_index] = True] *)
Definition test_mask (n_samples : nat) (test_index : list nat) : list bool :=
  map (fun i => existsb (Nat.eqb i) test_index) (Np.arange n_samples).

(** [split]: for every test mask,
    [(indices[logical_not(mask)], indices[mask])] over
    [indices = arange(n_samples)]. *)
Definition split_of_mask (n_samples : nat) (mask : list bool) : list nat * list nat :=
  (Np.compress (map negb mask) (Np.arange n_samples),
   Np.compress mask (Np.arange n_samples)).

(** The splits of [KFold(n_splits=k, shuffle=True).split(X)] once the
    index array has been shuffled into [indices]. *)
Definition KFold_split_indices (n_splits n_samples : nat) (indices : list nat)
  : list (list nat * list nat) :=
  map (fun chunk => split_of_mask n_samples (test_mask n_samples chunk))
      (iter_test_indices indices 0 (fold_sizes n_samples n_splits)).

(** [KFold(n_splits=k, shuffle=True)] followed by [kf.split(X)] with
    [len(X) = n_samples]: the constructor rejects [k <= 1], [split]
    rejects [k > n_samples], and the shuffle draws from the global
    generator. *)
Definition KFold_split (R : RandomState) (n_splits n_samples : nat) (g : rng R)
  : result (list (list nat * list nat) * rng R) :=
  if (n_splits <=? 1)%nat then Raise ValueError
  else if (n_samples <? n_splits)%nat then Raise ValueError
  else
    let '(indices, g') := shuffle R (Np.arange n_samples) g in
    Ok (KFold_split_indices n_splits n_samples indices, g').

End Sk.

(* ================================================================== *)
(** * The conditional-mean influence function (both notebooks) *)
(* ================================================================== *)

(** [pmf] and the loop over the held-out observations are written out
    verbatim in [k-fold_conditional_expectation.ipynb] and in
    [conditional_expectation_tutorial.ipynb]; they are embedded once. *)
Module CondMean.

Import Np.

(** A fitted regressor, seen through [reg.predict(x.reshape(1, -1))]. *)
Definition regressor : Type := row -> Qc.

(**
<<
def pmf(x, cats, p_cats):
    ind = np.where((cats==x).all(axis=1))[0][0]
    return p_cats[ind]
>> *)
Definition pmf (x : row) (cats : list row) (p_cats : list Qc) : result Qc :=
  ind <- item (where_ (map (fun c => row_eqb c x) cats)) 0 ;;
  item p_cats ind.

(** [p_cats = counts / len(X)] *)
Definition normalize (counts : list nat) (len : nat) : list Qc :=
  map (fun c => of_nat c / of_nat len) counts.

(** The influence value of one held-out observation, as the body of the
    loop computes it:
<<
    y_tilde = y_test[i]
    x_tilde = X_test[i]
    EY_tildeX = reg.predict(x_tilde.reshape(1, -1))
    y_Ey = y_tilde - EY_tildeX
    if (x_tilde == cond_X_est).all():
        delta_over_fx = 1 / pmf(x_tilde, cats_train, p_cats_train)
    else:
        delta_over_fx = 0
    all_phi.append(delta_over_fx * y_Ey)
>> *)
Definition influence_value (reg : regressor) (cond_X : row)
           (cats : list row) (p_cats : list Qc) (x_tilde : row) (y_tilde : Qc)
  : result Qc :=
  let EY_tildeX := reg x_tilde in
  let y_Ey := y_tilde - EY_tildeX in
  delta_over_fx <-
    (if row_eqb x_tilde cond_X
     then p <- pmf x_tilde cats p_cats ;; divide 1 p
     else Ok 0) ;;
  Ok (delta_over_fx * y_Ey).

(** One pass of the loop: the two reads, the value, the [append]. *)
Definition phi_step (reg : regressor) (cond_X : row)
           (cats : list row) (p_cats : list Qc) (X_test : list row) (y_test : list Qc)
           (all_phi : list Qc) (i : nat) : result (list Qc) :=
  y_tilde <- item y_test i ;;
  x_tilde <- item X_test i ;;
  v <- influence_value reg cond_X cats p_cats x_tilde y_tilde ;;
  Ok (all_phi ++ [v]).

(** [all_phi = []; for i in range(len(X_test)): ...] *)
Definition influence_values (reg : regressor) (cond_X : row)
           (cats : list row) (p_cats : list Qc) (X_test : list row) (y_test : list Qc)
  : result (list Qc) :=
  for_each (phi_step reg cond_X cats p_cats X_test y_test)
           (seq 0 (length X_test)) [].

Definition list_row_eq_dec : forall a b : row, {a = b} + {a <> b} :=
  list_eq_dec Qc_eq_dec.

(** The empirical frequency of [x] in a fold, as the specification
    words it: the number of occurrences over the size of the fold. *)
Definition empirical_frequency (x : row) (fold : list row) : Qc :=
  of_nat (count_occ list_row_eq_dec fold x) / of_nat (length fold).

(** The indicator of [x_tilde = x_star]. *)
Definition indicator (x_tilde x_star : row) : Qc :=
  if list_row_eq_dec x_tilde x_star then 1 else 0.

End CondMean.

(* ================================================================== *)
(** * [k-fold_conditional_expectation.ipynb] *)
(* ================================================================== *)

Module KFoldCE.

Import Np CondMean.

(** [np.concatenate([c0, c1, ...], 1)] of [N x 1] columns. *)
Definition concatenate_columns (N : nat) (cols : list (list Qc)) : list row :=
  map (fun i => map (fun col => nth i col 0) cols) (seq 0 N).

(** [a * b], element by element. *)
Fixpoint multiply (a b : list Qc) : list Qc :=
  match a, b with
  | ai :: a', bi :: b' => ai * bi :: multiply a' b'
  | _, _ => []
  end.

(** [a + b], element by element, for arrays of one shape. *)
Fixpoint add (a b : list Qc) : list Qc :=
  match a, b with
  | ai :: a', bi :: b' => ai + bi :: add a' b'
  | _, _ => []
  end.

(** [row[1:-1]] *)
Definition drop_ends (r : row) : row := removelast (tl r).

(** The constants of the notebook. *)
Definition num_loops : nat := 500.
Definition k : nat := 6.
Definition N : nat := 5000.
Definition cond_X_GT : row := [1; 1; 0; 1; 0; 0].
Definition cond_X_est : row := drop_ends cond_X_GT.
Definition beta : list Qc :=
  [Q2Qc (33 # 10); Q2Qc (6 # 10); Q2Qc (5 # 10); Q2Qc (9 # 10); Q2Qc (6 # 10); 1].

Section Notebook.

Variable R : RandomState.

(** [LinearRegression().fit(X_train, y_train)], seen through
    [predict]; deterministic, it draws nothing. *)
Variable LinearRegression_fit : list row -> list Qc -> regressor.

(**
<<
def data_gen(N, beta, seed):
  np.random.seed(seed)
  X0 = np.array([1.0]).repeat(N).reshape(-1, 1)
  X1 = np.random.binomial(1, 0.5, N).reshape(-1, 1)
  ...
  X = np.concatenate([X0, X1, X2, X3, X4, X2*X3], 1)
  u =  0.5*np.random.randn(N)
  y = np.dot(X, beta) + u
  return X[:,1:-1], X, y, u
>>
    The incoming state [g] of the generator is overwritten by the
    seeding. *)
Definition data_gen (N : nat) (beta : list Qc) (seed : Z) (g : rng R)
  : (list row * list row * list Qc * list Qc) * rng R :=
  let g := seed_state R seed in
  let X0 := repeat 1 N in
  let '(X1, g) := binomial R N g in
  let '(X2, g) := binomial R N g in
  let '(X3, g) := binomial R N g in
  let '(X4, g) := binomial R N g in
  let X1 := map of_nat X1 in
  let X2 := map of_nat X2 in
  let X3 := map of_nat X3 in
  let X4 := map of_nat X4 in
  let X := concatenate_columns N [X0; X1; X2; X3; X4; multiply X2 X3] in
  let '(z, g) := randn R N g in
  let u := map (fun zi => Q2Qc (1 # 2) * zi) z in
  let y := add (map (fun r => dot r beta) X) u in
  ((map drop_ends X, X, y, u), g).

(** The part of the body of [for train_index, test_index in
    kf.split(X)] that computes: the fold's plug-in prediction [psi]
    and its list [all_phi] of influence values. *)
Definition fold_estimates (X : list row) (y : list Qc) (cond_X : row)
           (split : list nat * list nat) : result (Qc * list Qc) :=
  let '(train_index, test_index) := split in
  X_train <- take X train_index ;;
  X_test <- take X test_index ;;
  y_train <- take y train_index ;;
  y_test <- take y test_index ;;
  let reg := LinearRegression_fit X_train y_train in
  let psi := reg cond_X in
  let '(cats_train, counts_train) := unique X_train in
  let p_cats_train := normalize counts_train (length X_train) in
  all_phi <- influence_values reg cond_X cats_train p_cats_train X_test y_test ;;
  Ok (psi, all_phi).

(** The same body with its two updates of the loop state:
    [psis.append(psi)] and [phis = np.asarray(all_phi)]. *)
Definition fold_body (X : list row) (y : list Qc) (cond_X : row)
           (st : list Qc * list Qc) (split : list nat * list nat)
  : result (list Qc * list Qc) :=
  let '(psis, phis) := st in
  '(psi, all_phi) <- fold_estimates X y cond_X split ;;
  let psis := psis ++ [psi] in
  let phis := all_phi in
  Ok (psis, phis).

(**
<<
  psis = []
  phis = []
  for train_index, test_index in kf.split(X):
      ...
  phi = phis.mean()
  psi = np.asarray(psis).mean()
  psi_est_updated = psi + phi
>>
    With no split at all [phis] is still the Python list [[]], which
    has no [mean]. *)
Definition cross_fit (X : list row) (y : list Qc) (cond_X : row)
           (splits : list (list nat * list nat)) : result (Qc * Qc) :=
  '(psis, phis) <- for_each (fold_body X y cond_X) splits ([], []) ;;
  match splits with
  | [] => Raise AttributeError
  | _ :: _ =>
      let phi := mean phis in
      let psi := mean psis in
      let psi_est_updated := psi + phi in
      Ok (psi, psi_est_updated)
  end.

(** One pass of the first simulation loop (outcome model without the
    interaction column): [psi] and [psi_est_updated]. *)
Definition replicate_misspecified (k N : nat) (beta : list Qc) (seed : Z) (g : rng R)
  : result (Qc * Qc * rng R) :=
  let '((X, X_all, y, u), g) := data_gen N beta seed g in
  '(splits, g) <- Sk.KFold_split R k (length X) g ;;
  est <- cross_fit X y cond_X_est splits ;;
  Ok (est, g).


(** [for i in range(num_loops): seed += 1; ...;
     biased_psis.append(psi); upd_psis.append(psi_est_updated)] *)
Fixpoint simulate (replicate : Z -> rng R -> result (Qc * Qc * rng R))
         (num_loops : nat) (seed : Z) (biased_psis upd_psis : list Qc) (g : rng R)
  : result (list Qc * list Qc * Z * rng R) :=
  match num_loops with
  | O => Ok (biased_psis, upd_psis, seed, g)
  | S n =>
      let seed := (seed + 1)%Z in
      '(psi, psi_est_updated, g) <- replicate seed g ;;
      simulate replicate n seed (biased_psis ++ [psi])
               (upd_psis ++ [psi_est_updated]) g
  end.

(** The estimator as the specification words it: every fold
    contributes its average influence value,
    [Psi_upd = mean_i psi_i + mean_i phi_i]. *)
Definition spec_cross_fit (X : list row) (y : list Qc) (cond_X : row)
           (splits : list (list nat * list nat)) : result (Qc * Qc) :=
  per_fold <- map_result (fold_estimates X y cond_X) splits ;;
  let psi := mean (map fst per_fold) in
  let phi := mean (map (fun e => mean (snd e)) per_fold) in
  Ok (psi, psi + phi).

End Notebook.

(** The least-squares line through the first covariate.  On a design
    whose other columns are constant this is the regressor that
    [LinearRegression().fit(X, y)] returns: centring removes constant
    columns and the minimum-norm solution gives them coefficient 0. *)
Definition ols_first_column (X : list row) (y : list Qc) : regressor :=
  let x := map (fun r => hd 0 r) X in
  let x_bar := mean x in
  let y_bar := mean y in
  let xc := map (fun xi => xi - x_bar) x in
  let sxx := sum (multiply xc xc) in
  let sxy := sum (multiply xc (map (fun yi => yi - y_bar) y)) in
  let slope := if Qc_eq_dec sxx 0 then 0 else sxy / sxx in
  fun r => y_bar + slope * (hd 0 r - x_bar).

(** Four observations that differ in [X1] only, and their outcomes. *)
Definition X_small : list row :=
  [[1; 0; 1; 0]; [0; 0; 1; 0]; [1; 0; 1; 0]; [0; 0; 1; 0]].
Definition y_small : list Qc := [0; 1; 1 + 1; 1].

End KFoldCE.

(* ================================================================== *)
(** * [conditional_expectation_tutorial.ipynb] *)
(* ================================================================== *)

Module TutorialCE.

Import Np CondMean.

(** [a[: len(a)//2]] and [a[len(a)//2 :]] *)
Definition first_half {A : Type} (a : list A) : list A := firstn (length a / 2) a.
Definition second_half {A : Type} (a : list A) : list A := skipn (length a / 2) a.

(** [a + b] on two [(n, 1)] arrays: equal shapes add element by
    element, a single row is broadcast, anything else is a shape
    mismatch. *)
Definition add_broadcast (a b : list Qc) : result (list Qc) :=
  if (length a =? length b)%nat then Ok (KFoldCE.add a b)
  else match a, b with
       | [a0], _ => Ok (map (fun bi => a0 + bi) b)
       | _, [b0] => Ok (map (fun ai => ai + b0) a)
       | _, _ => Raise ValueError
       end.

Definition N : nat := 5000.
Definition cond_X_GT : row := [1; 1; 0; 1; 0; 0].
Definition cond_X_est : row := KFoldCE.drop_ends cond_X_GT.

Section Notebook.

Variable R : RandomState.

(** [np.log] *)
Variable ln : Qc -> Qc.

(** [RandomForestRegressor().fit(X, y)], seen through [predict]; its
    bootstrap draws from the global generator. *)
Variable RandomForestRegressor_fit :
  list row -> list Qc -> rng R -> regressor * rng R.

(** [data_gen(N, beta)] of this notebook: no seeding, and
    [y = np.log(np.dot(X, beta) + u**2)]. *)
Definition data_gen (N : nat) (beta : list Qc) (g : rng R)
  : (list row * list row * list Qc * list Qc) * rng R :=
  let X0 := repeat 1 N in
  let '(X1, g) := binomial R N g in
  let '(X2, g) := binomial R N g in
  let '(X3, g) := binomial R N g in
  let '(X4, g) := binomial R N g in
  let X1 := map of_nat X1 in
  let X2 := map of_nat X2 in
  let X3 := map of_nat X3 in
  let X4 := map of_nat X4 in
  let X := KFoldCE.concatenate_columns N
             [X0; X1; X2; X3; X4; KFoldCE.multiply X2 X3] in
  let '(z, g) := randn R N g in
  let u := map (fun zi => Q2Qc (1 # 2) * zi) z in
  let y := map ln (KFoldCE.add (map (fun r => dot r beta) X)
                               (KFoldCE.multiply u u)) in
  ((map KFoldCE.drop_ends X, X, y, u), g).

(** Steps 2 to 9 of the notebook, on a sample [(X, y)]. *)
Definition estimate (X : list row) (y : list Qc) (g : rng R)
  : result (Qc * Qc * rng R) :=
  (* 2. *)
  let X_ds1 := first_half X in
  let X_ds2 := second_half X in
  let y_ds1 := first_half y in
  let y_ds2 := second_half y in
  (* 3. *)
  let '(reg, g) := RandomForestRegressor_fit X_ds1 y_ds1 g in
  let psi_ds1 := reg cond_X_est in
  (* 4. *)
  let '(cats_ds1, counts_ds1) := unique X_ds1 in
  let p_cats_ds1 := normalize counts_ds1 (length X_ds1) in
  (* 5. *)
  all_phi_ds2s <- influence_values reg cond_X_est cats_ds1 p_cats_ds1 X_ds2 y_ds2 ;;
  (* 6. *)
  let '(reg, g) := RandomForestRegressor_fit X_ds2 y_ds2 g in
  let psi_ds2 := reg cond_X_est in
  let '(cats_ds2, counts_ds2) := unique X_ds2 in
  let p_cats_ds2 := normalize counts_ds2 (length X_ds2) in
  all_phi_ds1s <- influence_values reg cond_X_est cats_ds2 p_cats_ds2 X_ds1 y_ds1 ;;
  (* 7. *)
  s <- add_broadcast all_phi_ds1s all_phi_ds2s ;;
  let phi_est := mean (map (fun v => v / (1 + 1)) s) in
  (* 8. *)
  let psi_est := (psi_ds1 + psi_ds2) / (1 + 1) in
  (* 9. *)
  let psi_est_updated := psi_est + phi_est in
  Ok (psi_est, psi_est_updated, g).

End Notebook.

End TutorialCE.

(* ================================================================== *)
(** * [generalising_IFs_autograd_tutorial.ipynb] *)
(* ================================================================== *)

Module Entropy.

Import Np.

(** ** A fragment of torch's autograd

    The operations the notebook records on a tensor that requires a
    gradient, as a graph over one leaf. *)
Inductive graph : Type :=
| Leaf
| Const (c : Qc)
| Neg (a : graph)
| Mul (a b : graph)
| Div (a b : graph)
| Log (a : graph).

Section Autograd.

(** [torch.log] *)
Variable ln : Qc -> Qc.

(** The value of the graph when the leaf holds [v]. *)
Fixpoint forward (e : graph) (v : Qc) : Qc :=
  match e with
  | Leaf => v
  | Const c => c
  | Neg a => - forward a v
  | Mul a b => forward a v * forward b v
  | Div a b => forward a v / forward b v
  | Log a => ln (forward a v)
  end.

(** Reverse mode: what [backward] adds to the leaf's [.grad] when the
    gradient [grad_output] arrives at the root of [e]. *)
Fixpoint backward (e : graph) (v : Qc) (grad_output : Qc) : Qc :=
  match e with
  | Leaf => grad_output
  | Const _ => 0
  | Neg a => backward a v (- grad_output)
  | Mul a b =>
      backward a v (grad_output * forward b v)
      + backward b v (grad_output * forward a v)
  | Div a b =>
      backward a v (grad_output / forward b v)
      + backward b v (- grad_output * forward a v / (forward b v * forward b v))
  | Log a => backward a v (grad_output / forward a v)
  end.

(** [t.requires_grad_(True); f(t).backward(torch.ones(shape));
     t.grad.data] for an element-wise [f]. *)
Definition grad_data (f : graph) (t : list Qc) : list Qc :=
  map (fun v => backward f v 1) t.

(** [def nu(a, dx): return - a * torch.log(a/dx)] *)
Definition nu_graph (dx : Qc) : graph :=
  Mul (Neg Leaf) (Log (Div Leaf (Const dx))).
Definition nu (a : list Qc) (dx : Qc) : list Qc :=
  map (forward (nu_graph dx)) a.

(** [def phi(b): return b] *)
Definition phi_graph : graph := Leaf.
Definition phi (b : Qc) : Qc := forward phi_graph b.

(** [def entropy(p, dx): return phi((nu(p, dx)).sum())] *)
Definition entropy (p : list Qc) (dx : Qc) : Qc := phi (sum (nu p dx)).

End Autograd.

(** [np.arange(start, stop, step)] on floats:
    [ceil((stop - start) / step)] points [start + i * step]. *)
Definition arange_float (start stop step : Qc) : list Qc :=
  map (fun i => start + of_nat i * step)
      (seq 0 (Z.to_nat (Qceiling (this ((stop - start) / step))))).

Definition n : nat := 100 * 100.
Definition dx : Qc := Q2Qc (1 # 100).
Definition minus_ten : Qc := Q2Qc (-10 # 1).
Definition ten : Qc := Q2Qc (10 # 1).

Section Notebook.

Variable ln : Qc -> Qc.     (* torch.log *)
Variable exp : Qc -> Qc.    (* np.exp *)

(** [KernelDensity(kernel='gaussian', bandwidth=0.2).fit(x)], seen
    through [score_samples]: the log-density at a point. *)
Variable KernelDensity_fit : list Qc -> (Qc -> Qc).

(** [np.exp(kde.score_samples(a)) * dx] *)
Definition density (kde : Qc -> Qc) (a : list Qc) (dx : Qc) : list Qc :=
  map (fun r => exp (kde r) * dx) a.

Section Sample.

(** The sample [x] and the width [dx] of the grid. *)
Variable x : list Qc.
Variable dx : Qc.

Definition x1 : list Qc := TutorialCE.first_half x.
Definition x2 : list Qc := TutorialCE.second_half x.

Definition kde_ds1 : Qc -> Qc := KernelDensity_fit x1.
Definition kde_ds2 : Qc -> Qc := KernelDensity_fit x2.

Definition r_ds1 : list Qc := arange_float minus_ten ten dx.
Definition p_r_ds1 : list Qc := density kde_ds1 r_ds1 dx.

Definition r_ds2 : list Qc := arange_float minus_ten ten dx.
(** [p_r_ds2 = np.exp(kde_ds1.score_samples(r_ds2)) * dx] *)
Definition p_r_ds2 : list Qc := density kde_ds1 r_ds2 dx.

Definition est_ds1 : Qc := entropy ln p_r_ds1 dx.
Definition est_ds2 : Qc := entropy ln p_r_ds2 dx.
Definition est : Qc := (est_ds1 + est_ds2) / (1 + 1).

(** Part 1 *)
Definition int_nu_p_ds1 : Qc := sum (nu ln p_r_ds1 dx).
Definition A_ds1 : Qc := backward ln phi_graph int_nu_p_ds1 1.

Definition p_xi_ds2 : list Qc := density kde_ds1 x2 dx.
Definition nu_pr_p_xi_ds2 : list Qc := grad_data ln (nu_graph dx) p_xi_ds2.
Definition B_ds1 : Qc := mean nu_pr_p_xi_ds2.

Definition nu_pr_p_ds1 : list Qc := grad_data ln (nu_graph dx) p_r_ds1.
Definition C_ds1 : Qc := sum (KFoldCE.multiply p_r_ds1 nu_pr_p_ds1).

Definition psi_ds1 : Qc := A_ds1 * (B_ds1 - C_ds1).

(** Part 2 *)
Definition int_nu_p_ds2 : Qc := sum (nu ln p_r_ds2 dx).
Definition A_ds2 : Qc := backward ln phi_graph int_nu_p_ds2 1.

Definition p_xi_ds1 : list Qc := density kde_ds2 x1 dx.
Definition nu_pr_p_xi_ds1 : list Qc := grad_data ln (nu_graph dx) p_xi_ds1.
Definition B_ds2 : Qc := mean nu_pr_p_xi_ds1.

Definition nu_pr_p_ds2 : list Qc := grad_data ln (nu_graph dx) p_r_ds2.
Definition C_ds2 : Qc := sum (KFoldCE.multiply p_r_ds2 nu_pr_p_ds2).

Definition psi_ds2 : Qc := A_ds2 * (B_ds2 - C_ds2).

(** Part 3 and the update *)
Definition psi : Qc := (psi_ds1 + psi_ds2) / (1 + 1).
Definition updated_est : Qc := est + psi.

(** The quantities of the specification for a split whose density
    is fitted on [train] and whose held-out samples are [held]:
    the plug-in value [phi(sum nu(p))] and the correction
    [A (B - C)] with the analytic derivatives
    [nu'(a) = - log(a/dx) - 1] and [phi' = 1]. *)
Definition nu_prime (a : Qc) : Qc := - ln (a / dx) - 1.
Definition phi_prime (b : Qc) : Qc := 1.

Definition spec_plug_in (train : list Qc) : Qc :=
  let p := density (KernelDensity_fit train) (arange_float minus_ten ten dx) dx in
  sum (map (fun a => - a * ln (a / dx)) p).

Definition spec_A (train : list Qc) : Qc :=
  let p := density (KernelDensity_fit train) (arange_float minus_ten ten dx) dx in
  phi_prime (sum (map (fun a => - a * ln (a / dx)) p)).

Definition spec_B (train held : list Qc) : Qc :=
  mean (map nu_prime (density (KernelDensity_fit train) held dx)).

Definition spec_C (train : list Qc) : Qc :=
  let p := density (KernelDensity_fit train) (arange_float minus_ten ten dx) dx in
  sum (map (fun a => a * nu_prime a) p).

Definition spec_correction (train held : list Qc) : Qc :=
  spec_A train * (spec_B train held - spec_C train).

End Sample.

End Notebook.

End Entropy.

(* ================================================================== *)
(** * Vocabulary of the statements *)
(* ================================================================== *)

(** The multiplicity recorded for the row [x] in a table of
    [np.unique]: the count next to the first entry whose row is [x]. *)
Fixpoint lookup (x : Np.row) (t : list (Np.row * nat)) : option nat :=
  match t with
  | [] => None
  | (c, n) :: t' => if Np.row_eqb c x then Some n else lookup x t'
  end.

Definition count_in (x : Np.row) (t : list (Np.row * nat)) : nat :=
  match lookup x t with
  | Some n => n
  | None => 0
  end.

(** Entries in strictly increasing lexicographic order of their rows. *)
Definition key_lt (e1 e2 : Np.row * nat) : Prop :=
  Np.row_compare (fst e1) (fst e2) = Lt.

Definition table_sorted (t : list (Np.row * nat)) : Prop :=
  StronglySorted key_lt t.

(** Number of occurrences of a row in a fold. *)
Definition occurrences (x : Np.row) (fold : list Np.row) : nat :=
  count_occ CondMean.list_row_eq_dec fold x.

(** Equality of the estimator's outcome is decidable. *)
Definition estimate_eq_dec (a b : result (Qc * Qc)) : {a = b} + {a <> b}.
Proof.
  decide equality.
  - decide equality; apply Qc_eq_dec.
  - decide equality.
Defined.

(** The influence values the last fold of a list leaves in [phis]. *)
Definition last_phis (per_fold : list (Qc * list Qc)) (phis : list Qc) : list Qc :=
  last (map snd per_fold) phis.

(** Two results agree up to the order of their entries, or both fail. *)
Definition same_up_to_order {A : Type} (a b : option (list A)) : Prop :=
  match a, b with
  | Some u, Some v => Permutation u v
  | None, None => True
  | _, _ => False
  end.

(** A small deterministic generator, to run the definitions on concrete
    inputs: the state is a counter, a draw reads it and advances it, and
    a shuffle reverses the array on even states. *)
Definition counter_random_state : RandomState := {|
  rng := Z;
  seed_state := fun s => s;
  binomial := fun n g =>
    (map (fun i => Z.to_nat ((g + Z.of_nat i) mod 2)) (seq 0 n), (g + Z.of_nat n)%Z);
  randn := fun n g =>
    (map (fun i => Q2Qc (inject_Z ((g + Z.of_nat i) mod 3 - 1))) (seq 0 n),
     (g + Z.of_nat n)%Z);
  shuffle := fun l g => (if Z.even g then rev l else l, (g + 1)%Z)
|}.

(** Stand-ins for the abstract library functions of the entropy notebook,
    to run its definitions on concrete inputs: a "density estimator" whose
    log-density is the mean of its training sample, and the identity for
    [log] and [exp]. *)
Definition constant_kde (sample : list Qc) : Qc -> Qc := fun _ => Np.mean sample.
Definition id_fn (t : Qc) : Qc := t.


(* ================================================================== *)
(** * The reporting cells of the k-fold notebook *)
(* ================================================================== *)

Module Report.

Import Np.

Definition hundred : Qc := Q2Qc (100 # 1).

(** [Psi_GT = np.dot(cond_X_GT, beta)] *)
Definition Psi_GT : Qc := dot KFoldCE.cond_X_GT KFoldCE.beta.

(** [(psis.mean() - Psi_GT)/Psi_GT * 100] *)
Definition relative_bias (psis : list Qc) (Psi_GT : Qc) : Qc :=
  (mean psis - Psi_GT) / Psi_GT * hundred.

(** [np.abs(psis.mean() - Psi_GT)/Psi_GT * 100] *)
Definition abs_relative_bias (psis : list Qc) (Psi_GT : Qc) : Qc :=
  Qcabs.Qcabs (mean psis - Psi_GT) / Psi_GT * hundred.

(** [errors = (psis - Psi_GT)/Psi_GT * 100] *)
Definition errors (psis : list Qc) (Psi_GT : Qc) : list Qc :=
  map (fun v => (v - Psi_GT) / Psi_GT * hundred) psis.

End Report.

(* ================================================================== *)
(** * More vocabulary *)
(* ================================================================== *)

(** The residuals [y - reg(x_star)] of the observations at the query
    vector, summed. *)
Definition residual_sum (reg : CondMean.regressor) (x_star : Np.row)
           (obs : list (Np.row * Qc)) : Qc :=
  Np.sum (map (fun o => snd o - reg x_star)
              (filter (fun o => Np.row_eqb (fst o) x_star) obs)).


(** The plug-in prediction of one fold, from its training indices alone. *)
Definition fold_prediction (fit : list Np.row -> list Qc -> CondMean.regressor)
           (X : list Np.row) (y : list Qc) (cond_X : Np.row)
           (split : list nat * list nat) : result Qc :=
  X_train <- Np.take X (fst split) ;;
  y_train <- Np.take y (fst split) ;;
  Ok (fit X_train y_train cond_X).

(** A stand-in for the random forest, to run the tutorial on concrete
    inputs: the least-squares line, and one draw from the generator. *)
Definition line_forest (X : list Np.row) (y : list Qc) (g : Z)
  : CondMean.regressor * Z :=
  (KFoldCE.ols_first_column X y, (g + 1)%Z).

(** Five observations: the four of [X_small] and one more. *)
Definition X_five : list Np.row := KFoldCE.X_small ++ [[0; 0; 1; 0]].
Definition y_five : list Qc := KFoldCE.y_small ++ [1].

(* ================================================================== *)
(** * Properties *)
(* ================================================================== *)

(** ** Arithmetic of the scalars *)

Lemma dec_true {P : Prop} (d : {P} + {~ P}) : (if d then true else false) = true -> P.
Proof. destruct d; [auto | discriminate]. Qed.

Lemma of_nat_0 : Np.of_nat 0 = 0.
Proof. apply Qc_is_canon. reflexivity. Qed.

Lemma of_nat_1 : Np.of_nat 1 = 1.
Proof. apply Qc_is_canon. reflexivity. Qed.

Lemma of_nat_add (a b : nat) : Np.of_nat (a + b) = Np.of_nat a + Np.of_nat b.
Proof.
  unfold Np.of_nat. apply Qc_is_canon. unfold Qcplus, Q2Qc. cbn [this].
  rewrite Nat2Z.inj_add, inject_Z_plus, !Qred_correct. reflexivity.
Qed.

Lemma of_nat_S (a : nat) : Np.of_nat (S a) = 1 + Np.of_nat a.
Proof. change (S a) with (1 + a)%nat. now rewrite of_nat_add, of_nat_1. Qed.

Lemma of_nat_pos (a : nat) : (0 < a)%nat -> 0 < Np.of_nat a.
Proof.
  intros Ha. unfold Qclt, Np.of_nat, Q2Qc. cbn [this]. rewrite !Qred_correct.
  unfold Qlt. simpl. lia.
Qed.

Lemma of_nat_neq_0 (a : nat) : (0 < a)%nat -> Np.of_nat a <> 0.
Proof.
  intros Ha E. apply of_nat_pos in Ha. rewrite E in Ha.
  exact (Qclt_not_eq _ _ Ha eq_refl).
Qed.

Lemma of_nat_le (a b : nat) : (a <= b)%nat -> Np.of_nat a <= Np.of_nat b.
Proof.
  intros Hab. unfold Qcle, Np.of_nat, Q2Qc. cbn [this]. rewrite !Qred_correct.
  unfold Qle. simpl. lia.
Qed.

Lemma Qcinv_pos (a : Qc) : 0 < a -> 0 < / a.
Proof.
  intros Ha. unfold Qclt, Qcinv, Q2Qc in *. cbn [this] in *.
  rewrite Qred_correct in Ha. rewrite !Qred_correct.
  apply Qinv_lt_0_compat. exact Ha.
Qed.

Lemma sum_app (a b : list Qc) : Np.sum (a ++ b) = Np.sum a + Np.sum b.
Proof.
  induction a as [|v a IH]; simpl.
  - now rewrite Qcplus_0_l.
  - unfold Np.sum in *. simpl. rewrite IH. ring.
Qed.

Lemma sum_Permutation (a b : list Qc) : Permutation a b -> Np.sum a = Np.sum b.
Proof.
  induction 1 as [| v a b _ IH | v w a | a b c _ IH1 _ IH2]; unfold Np.sum in *; simpl.
  - reflexivity.
  - now rewrite IH.
  - ring.
  - now rewrite IH1.
Qed.

Lemma mean_Permutation (a b : list Qc) : Permutation a b -> Np.mean a = Np.mean b.
Proof.
  intros H. unfold Np.mean.
  now rewrite (sum_Permutation _ _ H), (Permutation_length H).
Qed.

Lemma sum_map_div {A : Type} (f : A -> Qc) (d : Qc) (l : list A) :
  Np.sum (map (fun c => f c / d) l) = Np.sum (map f l) / d.
Proof.
  induction l as [|c l IH]; unfold Np.sum in *; simpl.
  - unfold Qcdiv. ring.
  - rewrite IH. unfold Qcdiv. ring.
Qed.

Lemma sum_map_of_nat (l : list nat) :
  Np.sum (map Np.of_nat l) = Np.of_nat (list_sum l).
Proof.
  induction l as [|c l IH]; unfold Np.sum in *; simpl.
  - now rewrite of_nat_0.
  - now rewrite IH, of_nat_add.
Qed.

(** ** Rows: equality test and lexicographic order *)

Lemma row_eqb_eq (a b : Np.row) : Np.row_eqb a b = true <-> a = b.
Proof.
  revert b. induction a as [|ai a IH]; intros [|bi b]; simpl; split;
    try congruence; try reflexivity.
  - destruct (Qc_eq_dec ai bi) as [->|]; simpl; [|discriminate].
    intros H. apply IH in H. now subst.
  - intros H. injection H as -> ->.
    destruct (Qc_eq_dec bi bi); [|congruence]. simpl. now apply IH.
Qed.

Lemma row_eqb_refl (a : Np.row) : Np.row_eqb a a = true.
Proof. now apply row_eqb_eq. Qed.

Lemma row_eqb_neq (a b : Np.row) : a <> b -> Np.row_eqb a b = false.
Proof.
  intros H. destruct (Np.row_eqb a b) eqn:E; [|reflexivity].
  apply row_eqb_eq in E. contradiction.
Qed.

Lemma row_compare_eq (a b : Np.row) : Np.row_compare a b = Eq <-> a = b.
Proof.
  revert b. induction a as [|ai a IH]; intros [|bi b]; simpl; split;
    try congruence; try reflexivity.
  - destruct (ai ?= bi) eqn:E; try discriminate.
    apply Qceq_alt in E. intros H. apply IH in H. now subst.
  - intros H. injection H as -> ->.
    rewrite (proj1 (Qceq_alt bi bi) eq_refl). now apply IH.
Qed.

Lemma Qccompare_antisym (p q : Qc) : (q ?= p) = CompOpp (p ?= q).
Proof. unfold Qccompare. now rewrite Qcompare_antisym. Qed.

Lemma row_compare_antisym (a b : Np.row) :
  Np.row_compare b a = CompOpp (Np.row_compare a b).
Proof.
  revert b. induction a as [|ai a IH]; intros [|bi b]; simpl; try reflexivity.
  rewrite (Qccompare_antisym ai bi).
  destruct (ai ?= bi); simpl; auto.
Qed.

Lemma row_compare_trans (a b c : Np.row) :
  Np.row_compare a b = Lt -> Np.row_compare b c = Lt -> Np.row_compare a c = Lt.
Proof.
  revert b c. induction a as [|ai a IH]; intros [|bi b] [|ci c]; simpl;
    try congruence.
  destruct (ai ?= bi) eqn:Eab; try discriminate;
    destruct (bi ?= ci) eqn:Ebc; try discriminate; intros Hab Hbc.
  - apply Qceq_alt in Eab, Ebc. subst.
    rewrite (proj1 (Qceq_alt ci ci) eq_refl). eauto.
  - apply Qceq_alt in Eab. subst. now rewrite Ebc.
  - apply Qceq_alt in Ebc. subst. now rewrite Eab.
  - apply Qclt_alt in Eab, Ebc.
    now rewrite (proj1 (Qclt_alt ai ci) (Qclt_trans _ _ _ Eab Ebc)).
Qed.

(** ** [np.unique]: a sorted table of multiplicities *)

Lemma lookup_below_head (y c : Np.row) (n : nat) (t : list (Np.row * nat)) :
  table_sorted ((c, n) :: t) -> Np.row_compare y c = Lt ->
  lookup y ((c, n) :: t) = None.
Proof.
  intros Hs Hy. apply StronglySorted_inv in Hs as [Hs Hall].
  assert (Hc : Np.row_eqb c y = false).
  { apply row_eqb_neq. intros ->.
    rewrite (proj2 (row_compare_eq y y) eq_refl) in Hy. discriminate. }
  simpl. rewrite Hc. clear Hc Hs.
  induction t as [|[c' n'] t IH]; simpl; [reflexivity|].
  inversion Hall as [|? ? Hc' Hall']; subst.
  unfold key_lt in Hc'. simpl in Hc'.
  assert (Hlt : Np.row_compare y c' = Lt) by (eapply row_compare_trans; eauto).
  rewrite row_eqb_neq; [now apply IH|].
  intros ->. rewrite (proj2 (row_compare_eq y y) eq_refl) in Hlt. discriminate.
Qed.

Lemma unique_insert_keys (y : Np.row) (t : list (Np.row * nat)) (e : Np.row * nat) :
  In e (Np.unique_insert y t) -> fst e = y \/ exists e', In e' t /\ fst e' = fst e.
Proof.
  induction t as [|[c n] t IH]; simpl.
  - intros [<-|[]]. now left.
  - destruct (Np.row_compare y c) eqn:E.
    + intros [<-|H]; right.
      * exists (c, n). split; [now left | reflexivity].
      * exists e. split; [now right | reflexivity].
    + intros [<-|[<-|H]]; [now left | right | right].
      * exists (c, n). split; [now left | reflexivity].
      * exists e. split; [now right | reflexivity].
    + intros [<-|H].
      * right. exists (c, n). split; [now left | reflexivity].
      * destruct (IH H) as [H'|[e' [He' Hk]]]; [now left|].
        right. exists e'. split; [now right | assumption].
Qed.

Lemma unique_insert_sorted (y : Np.row) (t : list (Np.row * nat)) :
  table_sorted t -> table_sorted (Np.unique_insert y t).
Proof.
  unfold table_sorted.
  induction t as [|[c n] t IH]; simpl; intros Hs.
  - constructor; constructor.
  - pose proof (StronglySorted_inv Hs) as [Hs' Hall].
    destruct (Np.row_compare y c) eqn:E.
    + apply row_compare_eq in E. subst c.
      constructor; [assumption|].
      rewrite Forall_forall in *. intros e He. exact (Hall e He).
    + constructor; [assumption|].
      constructor; [exact E|].
      rewrite Forall_forall in *. intros e He.
      unfold key_lt in *. simpl in *.
      eapply row_compare_trans; [exact E | exact (Hall e He)].
    + constructor; [now apply IH|].
      rewrite Forall_forall in *. intros e He.
      apply unique_insert_keys in He as [He|[e' [He' Hk]]].
      * unfold key_lt. simpl. rewrite He.
        rewrite row_compare_antisym, E. reflexivity.
      * unfold key_lt in *. rewrite <- Hk. exact (Hall e' He').
Qed.

Lemma lookup_unique_insert (x y : Np.row) (t : list (Np.row * nat)) :
  table_sorted t ->
  lookup x (Np.unique_insert y t) =
  if CondMean.list_row_eq_dec x y then Some (S (count_in y t)) else lookup x t.
Proof.
  induction t as [|[c n] t IH]; intros Hs.
  - simpl. destruct (CondMean.list_row_eq_dec x y) as [->|Hxy].
    + now rewrite row_eqb_refl.
    + rewrite row_eqb_neq; [reflexivity | congruence].
  - cbn [Np.unique_insert]. destruct (Np.row_compare y c) eqn:E.
    + (* the row is already the head of the table *)
      apply row_compare_eq in E. subst c.
      unfold count_in. simpl. rewrite row_eqb_refl.
      destruct (CondMean.list_row_eq_dec x y) as [->|Hxy].
      * now rewrite row_eqb_refl.
      * rewrite row_eqb_neq; [reflexivity | congruence].
    + (* the row goes in front *)
      unfold count_in. rewrite (lookup_below_head y c n t Hs E).
      cbn [lookup].
      destruct (CondMean.list_row_eq_dec x y) as [->|Hxy].
      * now rewrite row_eqb_refl.
      * rewrite (row_eqb_neq y x); [reflexivity | congruence].
    + (* the row goes further down *)
      assert (Hyc : y <> c).
      { intros ->. rewrite (proj2 (row_compare_eq c c) eq_refl) in E. discriminate. }
      apply StronglySorted_inv in Hs as [Hs _].
      unfold count_in. cbn [lookup].
      rewrite (row_eqb_neq c y) by congruence.
      destruct (Np.row_eqb c x) eqn:Ecx.
      * apply row_eqb_eq in Ecx. subst c.
        destruct (CondMean.list_row_eq_dec x y); [congruence | reflexivity].
      * rewrite (IH Hs). reflexivity.
Qed.

Lemma unique_table_sorted (X : list Np.row) : table_sorted (Np.unique_table X).
Proof.
  induction X as [|x X IH]; simpl.
  - constructor.
  - now apply unique_insert_sorted.
Qed.

(** The table of [np.unique] records, for every row, its number of
    occurrences, and nothing for the rows that do not occur. *)
Lemma lookup_unique_table (x : Np.row) (X : list Np.row) :
  lookup x (Np.unique_table X) =
  match occurrences x X with
  | O => None
  | S m => Some (S m)
  end.
Proof.
  unfold occurrences.
  induction X as [|y X IH]; [reflexivity|].
  cbn [Np.unique_table fold_right]. fold (Np.unique_table X).
  rewrite lookup_unique_insert by apply unique_table_sorted.
  cbn [count_occ].
  destruct (CondMean.list_row_eq_dec y x) as [->|Hyx].
  - destruct (CondMean.list_row_eq_dec x x); [|congruence].
    unfold count_in. rewrite IH.
    now destruct (count_occ CondMean.list_row_eq_dec X x).
  - destruct (CondMean.list_row_eq_dec x y); [congruence|]. exact IH.
Qed.

Lemma In_lookup (c : Np.row) (n : nat) (t : list (Np.row * nat)) :
  table_sorted t -> In (c, n) t -> lookup c t = Some n.
Proof.
  induction t as [|[c' n'] t IH]; intros Hs H; [destruct H|].
  destruct H as [H|H].
  - injection H as -> ->. simpl. now rewrite row_eqb_refl.
  - apply StronglySorted_inv in Hs as [Hs Hall].
    rewrite Forall_forall in Hall. specialize (Hall _ H).
    unfold key_lt in Hall. simpl in Hall.
    simpl. rewrite row_eqb_neq; [now apply IH|].
    intros ->. rewrite (proj2 (row_compare_eq c c) eq_refl) in Hall. discriminate.
Qed.

Lemma lookup_In (x : Np.row) (n : nat) (t : list (Np.row * nat)) :
  lookup x t = Some n -> In (x, n) t.
Proof.
  induction t as [|[c m] t IH]; simpl; [discriminate|].
  destruct (Np.row_eqb c x) eqn:E.
  - apply row_eqb_eq in E. intros [= ->]. left. now subst.
  - intros H. right. now apply IH.
Qed.

Lemma table_sorted_NoDup (t : list (Np.row * nat)) :
  table_sorted t -> NoDup (map fst t).
Proof.
  induction t as [|[c n] t IH]; intros Hs; simpl; constructor.
  - apply StronglySorted_inv in Hs as [_ Hall].
    rewrite Forall_forall in Hall. intros Hin.
    apply in_map_iff in Hin as [[c' n'] [Hc Hin]]. simpl in Hc. subst c'.
    specialize (Hall _ Hin). unfold key_lt in Hall. simpl in Hall.
    rewrite (proj2 (row_compare_eq c c) eq_refl) in Hall. discriminate.
  - apply IH. now apply StronglySorted_inv in Hs.
Qed.

Lemma unique_insert_counts (y : Np.row) (t : list (Np.row * nat)) :
  list_sum (map snd (Np.unique_insert y t)) = S (list_sum (map snd t)).
Proof.
  induction t as [|[c n] t IH]; simpl; [reflexivity|].
  destruct (Np.row_compare y c); simpl; [reflexivity | reflexivity |].
  rewrite IH. lia.
Qed.

Lemma unique_table_counts (X : list Np.row) :
  list_sum (map snd (Np.unique_table X)) = length X.
Proof.
  induction X as [|x X IH]; simpl; [reflexivity|].
  now rewrite unique_insert_counts, IH.
Qed.

(** ** [pmf]: a look-up in the table of a fold *)

Lemma pmf_from (x : Np.row) (len : nat) (t : list (Np.row * nat))
      (i : nat) (pre : list Qc) :
  length pre = i ->
  (ind <- Np.item (Np.where_from i (map (fun c => Np.row_eqb c x) (map fst t))) 0 ;;
   Np.item (pre ++ CondMean.normalize (map snd t) len) ind)
  = match lookup x t with
    | Some n => Ok (Np.of_nat n / Np.of_nat len)
    | None => Raise IndexError
    end.
Proof.
  revert i pre. induction t as [|[c n] t IH]; intros i pre Hlen; [reflexivity|].
  cbn [map fst snd Np.where_from lookup CondMean.normalize].
  destruct (Np.row_eqb c x).
  - cbn [Np.item nth_error bind]. unfold Np.item.
    rewrite nth_error_app2 by lia.
    replace (i - length pre)%nat with 0%nat by lia. reflexivity.
  - specialize (IH (S i) (pre ++ [Np.of_nat n / Np.of_nat len])).
    rewrite <- app_assoc in IH. cbn [app] in IH. apply IH.
    rewrite length_app. simpl. lia.
Qed.

Lemma pmf_lookup (x : Np.row) (len : nat) (t : list (Np.row * nat)) :
  CondMean.pmf x (map fst t) (CondMean.normalize (map snd t) len)
  = match lookup x t with
    | Some n => Ok (Np.of_nat n / Np.of_nat len)
    | None => Raise IndexError
    end.
Proof. exact (pmf_from x len t 0 [] eq_refl). Qed.

(** On the table of a fold, [pmf] answers the empirical frequency of a
    row that occurs in the fold and raises [IndexError] on any other. *)
Lemma pmf_unique (x : Np.row) (X : list Np.row) :
  CondMean.pmf x (fst (Np.unique X))
               (CondMean.normalize (snd (Np.unique X)) (length X))
  = match occurrences x X with
    | O => Raise IndexError
    | S _ => Ok (CondMean.empirical_frequency x X)
    end.
Proof.
  unfold Np.unique. cbn [fst snd]. rewrite pmf_lookup, lookup_unique_table.
  unfold CondMean.empirical_frequency, occurrences.
  now destruct (count_occ CondMean.list_row_eq_dec X x).
Qed.

Lemma occurrences_In (x : Np.row) (X : list Np.row) :
  In x X <-> (0 < occurrences x X)%nat.
Proof. unfold occurrences. apply count_occ_In. Qed.

Lemma occurrences_not_In (x : Np.row) (X : list Np.row) :
  ~ In x X <-> occurrences x X = 0%nat.
Proof. unfold occurrences. apply count_occ_not_In. Qed.

Lemma occurrences_le_length (x : Np.row) (X : list Np.row) :
  (occurrences x X <= length X)%nat.
Proof. unfold occurrences. apply count_occ_bound. Qed.

Lemma empirical_frequency_pos (x : Np.row) (X : list Np.row) :
  In x X ->
  1 / Np.of_nat (length X) <= CondMean.empirical_frequency x X
  /\ 0 < 1 / Np.of_nat (length X).
Proof.
  intros Hin. apply occurrences_In in Hin.
  pose proof (occurrences_le_length x X) as Hle.
  assert (Hlen : 0 < Np.of_nat (length X)) by (apply of_nat_pos; lia).
  pose proof (Qcinv_pos _ Hlen) as Hinv.
  unfold CondMean.empirical_frequency. fold (occurrences x X).
  unfold Qcdiv. split.
  - apply Qcmult_le_compat_r; [|now apply Qclt_le_weak].
    rewrite <- of_nat_1. apply of_nat_le. lia.
  - now rewrite Qcmult_1_l.
Qed.

Lemma empirical_frequency_neq_0 (x : Np.row) (X : list Np.row) :
  In x X -> CondMean.empirical_frequency x X <> 0.
Proof.
  intros Hin E. destruct (empirical_frequency_pos x X Hin) as [Hle Hpos].
  rewrite E in Hle.
  exact (Qclt_not_le _ _ Hpos Hle).
Qed.

(** ** The influence value of one held-out observation *)

Section InfluenceValue.

Variable reg : CondMean.regressor.
Variable x_star : Np.row.
Variable train : list Np.row.

(** The table and the frequencies the notebooks build from a training
    fold. *)
Let cats := fst (Np.unique train).
Let p_cats := CondMean.normalize (snd (Np.unique train)) (length train).

Lemma influence_value_off_query (x_tilde : Np.row) (y_tilde : Qc)
      (cats' : list Np.row) (p_cats' : list Qc) :
  x_tilde <> x_star ->
  CondMean.influence_value reg x_star cats' p_cats' x_tilde y_tilde = Ok 0.
Proof.
  intros Hne. unfold CondMean.influence_value.
  rewrite (row_eqb_neq _ _ Hne). cbn [bind]. f_equal. ring.
Qed.

Lemma influence_value_on_query (y_tilde : Qc) :
  CondMean.influence_value reg x_star cats p_cats x_star y_tilde =
  match occurrences x_star train with
  | O => Raise IndexError
  | S _ => Ok (1 / CondMean.empirical_frequency x_star train
               * (y_tilde - reg x_star))
  end.
Proof.
  unfold CondMean.influence_value, cats, p_cats.
  rewrite row_eqb_refl, pmf_unique.
  destruct (occurrences x_star train) eqn:E; [reflexivity|].
  cbn [bind]. unfold Np.divide.
  destruct (Qc_eq_dec (CondMean.empirical_frequency x_star train) 0) as [Hz|Hnz].
  - exfalso. revert Hz. apply empirical_frequency_neq_0.
    apply occurrences_In. lia.
  - reflexivity.
Qed.

End InfluenceValue.

(** ** The loop over a held-out fold *)

Lemma item_app_here {A : Type} (pre rest : list A) (a : A) :
  Np.item (pre ++ a :: rest) (length pre) = Ok a.
Proof.
  unfold Np.item. rewrite nth_error_app2 by lia.
  now rewrite Nat.sub_diag.
Qed.

Lemma map_result_Ok {A B : Type} (f : A -> result B) (g : A -> B) (l : list A) :
  (forall a, In a l -> f a = Ok (g a)) -> map_result f l = Ok (map g l).
Proof.
  induction l as [|a l IH]; intros H; simpl; [reflexivity|].
  rewrite (H a) by now left. cbn [bind]. rewrite IH; [reflexivity|].
  intros b Hb. apply H. now right.
Qed.

Lemma map_result_Raise {A B : Type} (f : A -> result B) (e : exn) (l : list A) :
  (forall a, In a l -> f a = Raise e \/ exists b, f a = Ok b) ->
  (exists a, In a l /\ f a = Raise e) ->
  map_result f l = Raise e.
Proof.
  induction l as [|a l IH]; intros Hall [a0 [Hin Ha0]]; [contradiction|].
  simpl. destruct (Hall a (or_introl eq_refl)) as [E|[b E]]; rewrite E; [reflexivity|].
  cbn [bind]. rewrite IH; [reflexivity| |].
  - intros c Hc. apply Hall. now right.
  - destruct Hin as [->|Hin]; [congruence|]. now exists a0.
Qed.

Lemma In_combine_l {A B : Type} (l : list A) (l' : list B) (a : A) :
  length l' = length l -> In a l -> exists b, In (a, b) (combine l l').
Proof.
  revert l'. induction l as [|c l IH]; intros [|b l'] Hlen Hin;
    try discriminate; [contradiction|].
  destruct Hin as [->|Hin].
  - exists b. now left.
  - injection Hlen as Hlen. destruct (IH l' Hlen Hin) as [b' Hb'].
    exists b'. now right.
Qed.

Section InfluenceLoop.

Variable reg : CondMean.regressor.
Variable cond_X : Np.row.
Variable cats : list Np.row.
Variable p_cats : list Qc.

Let value (o : Np.row * Qc) : result Qc :=
  CondMean.influence_value reg cond_X cats p_cats (fst o) (snd o).

Lemma influence_values_from (preX restX : list Np.row) (preY restY all_phi : list Qc) :
  length preY = length preX -> length restY = length restX ->
  for_each (CondMean.phi_step reg cond_X cats p_cats (preX ++ restX) (preY ++ restY))
           (seq (length preX) (length restX)) all_phi
  = (vs <- map_result value (combine restX restY) ;; Ok (all_phi ++ vs)).
Proof.
  revert preX preY restY all_phi.
  induction restX as [|x restX IH]; intros preX preY [|yv restY] all_phi Hpre Hrest;
    try discriminate.
  - simpl. now rewrite app_nil_r.
  - cbn [length seq for_each combine map_result].
    unfold CondMean.phi_step at 1.
    rewrite <- Hpre at 1. rewrite !item_app_here. cbn [bind].
    unfold value at 1. cbn [fst snd].
    destruct (CondMean.influence_value reg cond_X cats p_cats x yv) as [v|e]; [|reflexivity].
    cbn [bind].
    replace (preX ++ x :: restX) with ((preX ++ [x]) ++ restX)
      by (now rewrite <- app_assoc).
    replace (preY ++ yv :: restY) with ((preY ++ [yv]) ++ restY)
      by (now rewrite <- app_assoc).
    replace (S (length preX)) with (length (preX ++ [x]))
      by (rewrite length_app; simpl; lia).
    rewrite IH.
    + destruct (map_result value (combine restX restY)); [|reflexivity].
      cbn [bind]. now rewrite <- app_assoc.
    + rewrite !length_app. simpl. lia.
    + now injection Hrest.
Qed.

(** The loop computes the influence value of every held-out observation,
    in order, and stops at the first that raises. *)
Lemma influence_values_map (X_test : list Np.row) (y_test : list Qc) :
  length y_test = length X_test ->
  CondMean.influence_values reg cond_X cats p_cats X_test y_test
  = map_result value (combine X_test y_test).
Proof.
  intros Hlen. unfold CondMean.influence_values.
  pose proof (influence_values_from [] X_test [] y_test [] eq_refl Hlen) as H.
  cbn [app length] in H. rewrite H.
  now destruct (map_result value (combine X_test y_test)).
Qed.

End InfluenceLoop.

(** ** The empirical covariate table of a fold *)

Lemma unique_table_entry (c : Np.row) (n : nat) (X : list Np.row) :
  In (c, n) (Np.unique_table X) -> n = occurrences c X /\ In c X.
Proof.
  intros Hin. apply In_lookup in Hin; [|apply unique_table_sorted].
  rewrite lookup_unique_table in Hin.
  destruct (occurrences c X) eqn:E; [discriminate|].
  injection Hin as <-. split; [reflexivity|].
  apply occurrences_In. lia.
Qed.

Lemma unique_table_complete (c : Np.row) (X : list Np.row) :
  In c X -> In (c, occurrences c X) (Np.unique_table X).
Proof.
  intros Hin. apply lookup_In. rewrite lookup_unique_table.
  apply occurrences_In in Hin. destruct (occurrences c X); [lia | reflexivity].
Qed.

Lemma nth_error_table {A B : Type} (t : list (A * B)) (i : nat) (c : A) :
  nth_error (map fst t) i = Some c ->
  exists n, nth_error (map snd t) i = Some n /\ In (c, n) t.
Proof.
  revert i. induction t as [|[c' n'] t IH]; intros [|i]; simpl; try discriminate.
  - intros [= ->]. exists n'. split; [reflexivity | now left].
  - intros H. destruct (IH i H) as [n [Hn Hin]]. exists n. split; [assumption | now right].
Qed.

(** C7. For every non-empty training fold, the table built by
    [np.unique] and [counts / len(fold)] lists every distinct covariate
    vector of the fold exactly once, gives it the frequency
    count / len(fold), and these frequencies sum to 1 (exactly, the scalars
    being rationals). *)
Theorem empirical_table_frequencies (train : list Np.row) :
  train <> [] ->
  let cats := fst (Np.unique train) in
  let p_cats := CondMean.normalize (snd (Np.unique train)) (length train) in
  NoDup cats
  /\ (forall c, In c cats <-> In c train)
  /\ length p_cats = length cats
  /\ (forall i c, nth_error cats i = Some c ->
        nth_error p_cats i
        = Some (Np.of_nat (occurrences c train) / Np.of_nat (length train)))
  /\ Np.sum p_cats = 1.
Proof.
  intros Hne. cbv zeta. unfold Np.unique. cbn [fst snd].
  repeat split.
  - apply table_sorted_NoDup, unique_table_sorted.
  - intros Hin. apply in_map_iff in Hin as [[c' n] [Hc Hin]]. simpl in Hc. subst c'.
    now apply unique_table_entry in Hin.
  - intros Hin. apply in_map_iff. exists (c, occurrences c train).
    split; [reflexivity | now apply unique_table_complete].
  - unfold CondMean.normalize. now rewrite !length_map.
  - intros i c Hi. apply nth_error_table in Hi as [n [Hn Hin]].
    apply unique_table_entry in Hin as [-> _].
    unfold CondMean.normalize. now rewrite nth_error_map, Hn.
  - unfold CondMean.normalize.
    rewrite (sum_map_div Np.of_nat), sum_map_of_nat, unique_table_counts.
    unfold Qcdiv. apply Qcmult_inv_r, of_nat_neq_0.
    destruct train; [congruence | simpl; lia].
Qed.

Lemma empirical_table_frequencies_witness :
  let train := [[1; 0]; [0; 1]; [1; 0]] in
  train <> []
  /\ Np.sum (CondMean.normalize (snd (Np.unique train)) (length train)) = 1.
Proof.
  cbv zeta. split; [discriminate|].
  apply (empirical_table_frequencies [[1; 0]; [0; 1]; [1; 0]]). discriminate.
Defined.

(** C4. For every held-out observation [(x_tilde, y_tilde)] the influence
    value the loop computes is
    [indicator x_tilde x_star / P x_star * (y_tilde - estimator x_tilde)],
    with [P x_star] the frequency of the query vector [x_star] in the
    training fold: every value returned is that one, it is exactly 0 off
    the query vector, a value is returned whenever the query vector
    occurs in the training fold, and the loop then collects these values
    for the whole held-out fold. *)
Theorem influence_value_formula
        (reg : CondMean.regressor) (x_star : Np.row) (train : list Np.row)
        (x_tilde : Np.row) (y_tilde : Qc) :
  let cats := fst (Np.unique train) in
  let p_cats := CondMean.normalize (snd (Np.unique train)) (length train) in
  let computed := CondMean.influence_value reg x_star cats p_cats x_tilde y_tilde in
  let formula := fun (x : Np.row) (y : Qc) =>
                   CondMean.indicator x x_star
                   / CondMean.empirical_frequency x_star train
                   * (y - reg x) in
  (forall v, computed = Ok v -> v = formula x_tilde y_tilde)
  /\ (x_tilde <> x_star -> computed = Ok 0)
  /\ (In x_star train -> computed = Ok (formula x_tilde y_tilde))
  /\ (forall X_test y_test,
         In x_star train -> length y_test = length X_test ->
         CondMean.influence_values reg x_star cats p_cats X_test y_test
         = Ok (map (fun o => formula (fst o) (snd o)) (combine X_test y_test))).
Proof.
  cbv zeta.
  assert (Hoff : forall x y, x <> x_star ->
            CondMean.influence_value reg x_star (fst (Np.unique train))
              (CondMean.normalize (snd (Np.unique train)) (length train)) x y
            = Ok (CondMean.indicator x x_star
                  / CondMean.empirical_frequency x_star train * (y - reg x))).
  { intros x y Hne. rewrite (influence_value_off_query reg x_star x y _ _ Hne).
    unfold CondMean.indicator.
    destruct (CondMean.list_row_eq_dec x x_star); [contradiction|].
    f_equal. unfold Qcdiv. ring. }
  assert (Hon : forall x y, In x_star train ->
            CondMean.influence_value reg x_star (fst (Np.unique train))
              (CondMean.normalize (snd (Np.unique train)) (length train)) x y
            = Ok (CondMean.indicator x x_star
                  / CondMean.empirical_frequency x_star train * (y - reg x))).
  { intros x y Hin. destruct (CondMean.list_row_eq_dec x x_star) as [->|Hne].
    - rewrite influence_value_on_query. apply occurrences_In in Hin.
      destruct (occurrences x_star train); [lia|].
      unfold CondMean.indicator.
      now destruct (CondMean.list_row_eq_dec x_star x_star).
    - now apply Hoff. }
  split; [|split; [|split]].
  - destruct (CondMean.list_row_eq_dec x_tilde x_star) as [->|Hne].
    + rewrite influence_value_on_query.
      destruct (occurrences x_star train) eqn:E; [discriminate|].
      intros v [= <-]. unfold CondMean.indicator.
      now destruct (CondMean.list_row_eq_dec x_star x_star).
    + rewrite (Hoff _ _ Hne). now intros v [= <-].
  - intros Hne. now apply influence_value_off_query.
  - apply Hon.
  - intros X_test y_test Hin Hlen.
    rewrite influence_values_map by assumption.
    apply map_result_Ok with
      (g := fun o => CondMean.indicator (fst o) x_star
                     / CondMean.empirical_frequency x_star train
                     * (snd o - reg (fst o))).
    intros o _. now apply Hon.
Qed.

Lemma influence_value_formula_witness :
  let reg : CondMean.regressor := fun _ => 1 in
  let train := [[1; 0]; [0; 1]; [1; 0]; [1; 1]] in
  CondMean.influence_value reg [1; 0] (fst (Np.unique train))
    (CondMean.normalize (snd (Np.unique train)) (length train)) [1; 0] (1 + 1 + 1)
  = Ok (1 / (Np.of_nat 2 / Np.of_nat 4) * (1 + 1 + 1 - 1))
  /\ CondMean.influence_value reg [1; 0] (fst (Np.unique train))
    (CondMean.normalize (snd (Np.unique train)) (length train)) [0; 1] (1 + 1 + 1)
  = Ok 0.
Proof.
  cbv zeta.
  pose proof (influence_value_formula (fun _ => 1) [1; 0]
                [[1; 0]; [0; 1]; [1; 0]; [1; 1]] [1; 0] (1 + 1 + 1)) as [_ [_ Hon]].
  pose proof (influence_value_formula (fun _ => 1) [1; 0]
                [[1; 0]; [0; 1]; [1; 0]; [1; 1]] [0; 1] (1 + 1 + 1)) as [_ [Hoff _]].
  split.
  - apply Hon. left. reflexivity.
  - apply Hoff. intros H. injection H as H0 _. discriminate H0.
Defined.

(** ** The query vector missing from a training fold *)

(** C2, as amended.  When the training fold does not contain the query
    vector, [pmf] finds no matching row and the influence value of every
    held-out observation equal to the query vector raises the bare
    [IndexError] of the [[0][0]] look-up, and so does the loop over a
    held-out fold that contains the query vector; the notebooks have no
    labelled error for an unobserved query point. *)
Theorem unobserved_query_raises_IndexError
        (reg : CondMean.regressor) (x_star : Np.row) (train : list Np.row) :
  ~ In x_star train ->
  let cats := fst (Np.unique train) in
  let p_cats := CondMean.normalize (snd (Np.unique train)) (length train) in
  (forall x_tilde y_tilde,
      x_tilde = x_star ->
      CondMean.pmf x_tilde cats p_cats = Raise IndexError
      /\ CondMean.influence_value reg x_star cats p_cats x_tilde y_tilde
         = Raise IndexError)
  /\ (forall X_test y_test,
        In x_star X_test -> length y_test = length X_test ->
        CondMean.influence_values reg x_star cats p_cats X_test y_test
        = Raise IndexError).
Proof.
  intros Hnot. cbv zeta. apply occurrences_not_In in Hnot.
  assert (Hq : forall y, CondMean.influence_value reg x_star (fst (Np.unique train))
                 (CondMean.normalize (snd (Np.unique train)) (length train)) x_star y
               = Raise IndexError).
  { intros y. now rewrite influence_value_on_query, Hnot. }
  split.
  - intros x_tilde y_tilde ->. split; [|apply Hq].
    now rewrite pmf_unique, Hnot.
  - intros X_test y_test Hin Hlen.
    rewrite influence_values_map by assumption.
    apply map_result_Raise.
    + intros [x yv] _. cbn [fst snd].
      destruct (CondMean.list_row_eq_dec x x_star) as [->|Hne].
      * left. apply Hq.
      * right. exists 0. now apply influence_value_off_query.
    + destruct (In_combine_l X_test y_test x_star Hlen Hin) as [yv Hyv].
      exists (x_star, yv). split; [assumption | apply Hq].
Qed.

Lemma unobserved_query_raises_IndexError_witness :
  CondMean.influence_value (fun _ => 1) [1; 0; 1; 0]
    (fst (Np.unique [[0; 0; 1; 0]; [1; 1; 1; 0]]))
    (CondMean.normalize (snd (Np.unique [[0; 0; 1; 0]; [1; 1; 1; 0]])) 2)
    [1; 0; 1; 0] (1 + 1)
  = Raise IndexError.
Proof.
  apply (unobserved_query_raises_IndexError (fun _ => 1) [1; 0; 1; 0]
           [[0; 0; 1; 0]; [1; 1; 1; 0]]).
  - intros [H|[H|[]]]; injection H; intros; discriminate.
  - reflexivity.
Defined.

(** C2, as the specification states it, fails: on a training fold
    without the query vector [[1, 0, 1, 0]] the influence value of a
    held-out observation at the query vector is the raw [IndexError]. *)
Lemma unobserved_query_error_is_unlabelled :
  let train := [[0; 0; 1; 0]; [1; 1; 1; 0]] in
  let x_star := [1; 0; 1; 0] in
  ~ In x_star train
  /\ ~ (CondMean.influence_value (fun _ => 1) x_star (fst (Np.unique train))
          (CondMean.normalize (snd (Np.unique train)) (length train))
          x_star (1 + 1)
        <> Raise IndexError).
Proof.
  cbv zeta. split.
  - intros [H|[H|[]]]; injection H; intros; discriminate.
  - intros H. apply H. reflexivity.
Qed.

(** C10. In the influence loop the division [1 / pmf(...)] is evaluated
    only for observations equal to the query vector (off the query vector
    the value is 0 whatever the table holds); a frequency returned by
    [pmf] on the table of a fold is at least [1 / len(fold) > 0]; hence
    the only exception the guarded branch can raise is the [IndexError]
    of a look-up that finds no row, and never a division by zero. *)
Theorem division_by_pmf_is_safe
        (reg : CondMean.regressor) (x_star : Np.row) (train : list Np.row) :
  let cats := fst (Np.unique train) in
  let p_cats := CondMean.normalize (snd (Np.unique train)) (length train) in
  (forall x_tilde y_tilde cats' p_cats',
      x_tilde <> x_star ->
      CondMean.influence_value reg x_star cats' p_cats' x_tilde y_tilde = Ok 0)
  /\ (forall x p,
      CondMean.pmf x cats p_cats = Ok p ->
      1 / Np.of_nat (length train) <= p /\ 0 < 1 / Np.of_nat (length train))
  /\ (forall x_tilde y_tilde e,
      CondMean.influence_value reg x_star cats p_cats x_tilde y_tilde = Raise e ->
      e = IndexError /\ x_tilde = x_star /\ ~ In x_star train
      /\ CondMean.pmf x_tilde cats p_cats = Raise IndexError).
Proof.
  cbv zeta. split; [|split].
  - intros x_tilde y_tilde cats' p_cats' Hne.
    now apply influence_value_off_query.
  - intros x p. rewrite pmf_unique.
    destruct (occurrences x train) eqn:E; [discriminate|].
    intros [= <-]. apply empirical_frequency_pos, occurrences_In. lia.
  - intros x_tilde y_tilde e.
    destruct (CondMean.list_row_eq_dec x_tilde x_star) as [->|Hne].
    + rewrite influence_value_on_query, pmf_unique.
      destruct (occurrences x_star train) eqn:E; [|discriminate].
      intros [= <-]. repeat split. now apply occurrences_not_In.
    + rewrite (influence_value_off_query reg x_star x_tilde y_tilde _ _ Hne).
      discriminate.
Qed.

Lemma division_by_pmf_is_safe_witness :
  let train := [[1; 0]; [0; 1]; [1; 0]; [1; 1]] in
  CondMean.pmf [1; 0] (fst (Np.unique train))
               (CondMean.normalize (snd (Np.unique train)) (length train))
  = Ok (Q2Qc (1 # 2))
  /\ 1 / Np.of_nat 4 <= Q2Qc (1 # 2) /\ 0 < 1 / Np.of_nat 4.
Proof.
  cbv zeta.
  assert (E : CondMean.pmf [1; 0] (fst (Np.unique [[1; 0]; [0; 1]; [1; 0]; [1; 1]]))
                (CondMean.normalize (snd (Np.unique [[1; 0]; [0; 1]; [1; 0]; [1; 1]])) 4)
              = Ok (Q2Qc (1 # 2))).
  { rewrite pmf_unique. cbn. f_equal. apply Qc_is_canon. reflexivity. }
  split; [exact E|].
  exact (proj1 (proj2 (division_by_pmf_is_safe (fun _ => 1) [1; 0]
                         [[1; 0]; [0; 1]; [1; 0]; [1; 1]])) [1; 0] _ E).
Defined.

(** ** The loop over the folds *)

Lemma last_cons_default {A : Type} (a : A) (l : list A) (d : A) :
  last (a :: l) d = last l a.
Proof.
  revert a d. induction l as [|b l IH]; intros a d; [reflexivity|].
  change (last (a :: b :: l) d) with (last (b :: l) d).
  now rewrite (IH b d), (IH b a).
Qed.

Section CrossFit.

Variable fit : list Np.row -> list Qc -> CondMean.regressor.
Variable X : list Np.row.
Variable y : list Qc.
Variable cond_X : Np.row.

Let estimates := KFoldCE.fold_estimates fit X y cond_X.
Let body := KFoldCE.fold_body fit X y cond_X.

(** The loop appends every fold's prediction to [psis] and keeps in
    [phis] the influence values of the fold processed last. *)
Lemma for_each_fold_body (splits : list (list nat * list nat)) (psis phis : list Qc) :
  for_each body splits (psis, phis)
  = (per_fold <- map_result estimates splits ;;
     Ok (psis ++ map fst per_fold, last_phis per_fold phis)).
Proof.
  revert psis phis. induction splits as [|sp splits IH]; intros psis phis.
  - simpl. now rewrite app_nil_r.
  - cbn [for_each map_result]. unfold body at 1, KFoldCE.fold_body.
    fold estimates. destruct (estimates sp) as [[psi all_phi]|e]; [|reflexivity].
    cbn [bind]. fold body. rewrite IH.
    destruct (map_result estimates splits) as [per|e]; [|reflexivity].
    cbn [bind map fst snd]. rewrite <- app_assoc. cbn [app].
    unfold last_phis. cbn [map snd].
    now rewrite last_cons_default.
Qed.

Lemma cross_fit_unfold (splits : list (list nat * list nat)) :
  KFoldCE.cross_fit fit X y cond_X splits
  = (per_fold <- map_result estimates splits ;;
     match splits with
     | [] => Raise AttributeError
     | _ :: _ =>
         Ok (Np.mean (map fst per_fold),
             Np.mean (map fst per_fold) + Np.mean (last_phis per_fold []))
     end).
Proof.
  unfold KFoldCE.cross_fit. fold body. rewrite for_each_fold_body.
  destruct (map_result estimates splits) as [per|e]; reflexivity.
Qed.

Lemma map_result_app {A B : Type} (f : A -> result B) (l1 l2 : list A) :
  map_result f (l1 ++ l2)
  = (r1 <- map_result f l1 ;; r2 <- map_result f l2 ;; Ok (r1 ++ r2)).
Proof.
  induction l1 as [|a l1 IH]; simpl.
  - destruct (map_result f l2); reflexivity.
  - destruct (f a); [|reflexivity]. cbn [bind]. rewrite IH.
    destruct (map_result f l1); [|reflexivity]. cbn [bind].
    destruct (map_result f l2); reflexivity.
Qed.

(** What the notebook returns: the mean of the folds' predictions, plus
    the mean of the influence values of the last fold alone. *)
Lemma cross_fit_last_fold (splits : list (list nat * list nat))
      (last_split : list nat * list nat) (psi psi_est_updated : Qc) :
  KFoldCE.cross_fit fit X y cond_X (splits ++ [last_split])
  = Ok (psi, psi_est_updated) ->
  exists psi_last all_phi,
    estimates last_split = Ok (psi_last, all_phi)
    /\ psi_est_updated = psi + Np.mean all_phi.
Proof.
  rewrite cross_fit_unfold, map_result_app.
  destruct (map_result estimates splits) as [per|e]; [|discriminate].
  cbn [bind map_result].
  destruct (estimates last_split) as [[psi_last all_phi]|e]; [|discriminate].
  cbn [bind]. intros H. exists psi_last, all_phi. split; [reflexivity|].
  assert (Hl : last_phis (per ++ [(psi_last, all_phi)]) [] = all_phi).
  { unfold last_phis. rewrite map_app. cbn [map snd]. apply last_last. }
  rewrite Hl in H.
  destruct (splits ++ [last_split]) eqn:E.
  - now destruct splits.
  - now injection H as <- <-.
Qed.

Lemma map_result_Permutation {A B : Type} (f : A -> result B) (l l' : list A) :
  Permutation l l' ->
  same_up_to_order (value_of (map_result f l)) (value_of (map_result f l')).
Proof.
  induction 1 as [| a l l' _ IH | a b l | l l' l'' _ IH1 _ IH2].
  - simpl. constructor.
  - cbn [map_result]. destruct (f a); [|exact I]. cbn [bind].
    destruct (map_result f l), (map_result f l'); simpl in *;
      try contradiction; auto.
  - cbn [map_result].
    destruct (f a), (f b); cbn [bind]; try exact I;
      destruct (map_result f l); cbn; try exact I.
    apply perm_swap.
  - destruct (map_result f l), (map_result f l'), (map_result f l'');
      simpl in *; try contradiction; auto.
    eapply Permutation_trans; eassumption.
Qed.

End CrossFit.

(** C9. Processing the folds in another order leaves the plug-in
    estimate unchanged: it is the mean of the folds' predictions, which
    depends on their multiset only (and a run that fails in one order
    fails in every order). *)
Theorem plug_in_invariant_under_fold_order
        (fit : list Np.row -> list Qc -> CondMean.regressor)
        (X : list Np.row) (y : list Qc) (cond_X : Np.row)
        (splits splits' : list (list nat * list nat)) :
  Permutation splits splits' ->
  value_of (result_map fst (KFoldCE.cross_fit fit X y cond_X splits))
  = value_of (result_map fst (KFoldCE.cross_fit fit X y cond_X splits')).
Proof.
  intros Hperm. rewrite !cross_fit_unfold.
  pose proof (map_result_Permutation (KFoldCE.fold_estimates fit X y cond_X)
                _ _ Hperm) as Hmr.
  destruct (map_result (KFoldCE.fold_estimates fit X y cond_X) splits) as [per|e],
           (map_result (KFoldCE.fold_estimates fit X y cond_X) splits') as [per'|e'];
    simpl in Hmr; try contradiction; [|reflexivity].
  cbn [bind].
  destruct splits as [|sp splits], splits' as [|sp' splits'].
  - reflexivity.
  - now apply Permutation_nil in Hperm.
  - now apply Permutation_sym, Permutation_nil in Hperm.
  - unfold result_map. cbn [bind value_of fst]. f_equal.
    apply mean_Permutation, Permutation_map, Hmr.
Qed.

Lemma plug_in_invariant_under_fold_order_witness :
  let splits := Sk.KFold_split_indices 2 4 [0; 1; 2; 3]%nat in
  Permutation splits (rev splits)
  /\ value_of (result_map fst
       (KFoldCE.cross_fit KFoldCE.ols_first_column KFoldCE.X_small KFoldCE.y_small
                          KFoldCE.cond_X_est splits))
     = value_of (result_map fst
       (KFoldCE.cross_fit KFoldCE.ols_first_column KFoldCE.X_small KFoldCE.y_small
                          KFoldCE.cond_X_est (rev splits))).
Proof.
  cbv zeta. split.
  - apply Permutation_rev.
  - apply plug_in_invariant_under_fold_order, Permutation_rev.
Defined.

(** The tutorial notebook, whose two halves have the same size, does
    average over both folds: [((all_phi_ds1s + all_phi_ds2s)/2).mean()] is
    the mean of the two folds' average influence values. *)
Lemma sum_add_halved (a b : list Qc) :
  length a = length b ->
  Np.sum (map (fun v => v / (1 + 1)) (KFoldCE.add a b))
  = (Np.sum a + Np.sum b) / (1 + 1).
Proof.
  revert b. induction a as [|ai a IH]; intros [|bi b] Hlen; try discriminate.
  - unfold Np.sum, Qcdiv. simpl. ring.
  - injection Hlen as Hlen. specialize (IH b Hlen).
    unfold Np.sum in *. cbn [KFoldCE.add map fold_right]. rewrite IH.
    unfold Qcdiv. ring.
Qed.

Lemma add_length (a b : list Qc) :
  length a = length b -> length (KFoldCE.add a b) = length a.
Proof.
  revert b. induction a as [|ai a IH]; intros [|bi b] Hlen; try discriminate.
  - reflexivity.
  - injection Hlen as Hlen. simpl. now rewrite IH.
Qed.

Lemma tutorial_phi_est_averages_both_folds (all_phi_ds1s all_phi_ds2s : list Qc) :
  length all_phi_ds1s = length all_phi_ds2s ->
  exists s, TutorialCE.add_broadcast all_phi_ds1s all_phi_ds2s = Ok s
            /\ Np.mean (map (fun v => v / (1 + 1)) s)
               = (Np.mean all_phi_ds1s + Np.mean all_phi_ds2s) / (1 + 1).
Proof.
  intros Hlen. exists (KFoldCE.add all_phi_ds1s all_phi_ds2s). split.
  - unfold TutorialCE.add_broadcast. now rewrite Hlen, Nat.eqb_refl.
  - unfold Np.mean. rewrite length_map, (add_length _ _ Hlen), sum_add_halved by assumption.
    rewrite <- Hlen. unfold Qcdiv. ring.
Qed.

(** C1 fails on the k-fold notebook.  With four observations in two
    folds, a least-squares line as regressor and the query vector
    [[1, 0, 1, 0]], the folds' average influence values are -2 and 2 and
    their predictions 2 and 0: the specification's corrected estimate is
    1 + 0 = 1, the notebook returns 1 + 2 = 3, the plug-in estimate plus
    the average of the last fold alone. *)
Theorem cross_fit_adds_last_fold_only :
  let splits := Sk.KFold_split_indices 2 4 [0; 1; 2; 3]%nat in
  KFoldCE.cross_fit KFoldCE.ols_first_column KFoldCE.X_small KFoldCE.y_small
                    KFoldCE.cond_X_est splits
  = Ok (1, 1 + 1 + 1)
  /\ KFoldCE.spec_cross_fit KFoldCE.ols_first_column KFoldCE.X_small KFoldCE.y_small
                            KFoldCE.cond_X_est splits
     = Ok (1, 1).
Proof.
  cbv zeta. split; apply (dec_true (estimate_eq_dec _ _)); vm_compute; reflexivity.
Qed.

(** ** Splitting the sample into folds *)

Section Slices.

Context {A : Type}.

Lemma firstn_add (m n : nat) (l : list A) :
  firstn (m + n) l = firstn m l ++ firstn n (skipn m l).
Proof.
  revert l. induction m as [|m IH]; intros [|a l]; simpl; try reflexivity.
  - now rewrite firstn_nil.
  - now rewrite IH.
Qed.

Lemma slice_firstn (l : list A) (current size : nat) :
  Sk.slice l current (current + size) = firstn size (skipn current l).
Proof. unfold Sk.slice. f_equal. lia. Qed.

Lemma In_slice (l : list A) (current size : nat) (a : A) :
  In a (firstn size (skipn current l)) -> In a l.
Proof.
  intros H. rewrite <- (firstn_skipn current l). apply in_or_app. right.
  rewrite <- (firstn_skipn size (skipn current l)). apply in_or_app. now left.
Qed.

Lemma NoDup_slice (l : list A) (current size : nat) :
  NoDup l -> NoDup (firstn size (skipn current l)).
Proof.
  intros H. rewrite <- (firstn_skipn current l) in H.
  apply NoDup_app_remove_l in H.
  rewrite <- (firstn_skipn size (skipn current l)) in H.
  now apply NoDup_app_remove_r in H.
Qed.

Lemma compress_filter (f : A -> bool) (l : list A) :
  Np.compress (map f l) l = filter f l.
Proof.
  induction l as [|a l IH]; simpl; [reflexivity|].
  now destruct (f a); rewrite IH.
Qed.

Lemma filter_complement_Permutation (f : A -> bool) (l : list A) :
  Permutation (filter (fun a => negb (f a)) l ++ filter f l) l.
Proof.
  induction l as [|a l IH]; simpl; [constructor|].
  destruct (f a); simpl.
  - apply Permutation_sym, Permutation_cons_app, Permutation_sym, IH.
  - now constructor.
Qed.

Lemma NoDup_app_disjoint (l1 l2 : list A) :
  NoDup (l1 ++ l2) -> forall a, In a l1 -> ~ In a l2.
Proof.
  induction l1 as [|c l1 IH]; simpl; intros Hnd a Ha Hb; [contradiction|].
  inversion Hnd as [|? ? Hn Hnd']; subst.
  destruct Ha as [->|Ha].
  - apply Hn, in_or_app. now right.
  - exact (IH Hnd' a Ha Hb).
Qed.

Lemma concat_Permutation (L L' : list (list A)) :
  Forall2 (@Permutation A) L L' -> Permutation (concat L) (concat L').
Proof.
  induction 1; simpl; [constructor|]. now apply Permutation_app.
Qed.

Lemma concat_NoDup_disjoint (L : list (list A)) :
  NoDup (concat L) ->
  forall i j f g, i <> j -> nth_error L i = Some f -> nth_error L j = Some g ->
                  forall a, In a f -> ~ In a g.
Proof.
  induction L as [|h L IH]; intros Hnd i j f g Hij Hi Hj a Hf Hg.
  - now destruct i.
  - simpl in Hnd.
    pose proof (NoDup_app_disjoint _ _ Hnd) as Hdisj.
    assert (Hin : forall m u b, nth_error L m = Some u -> In b u -> In b (concat L)).
    { intros m u b Hm Hb. apply in_concat. exists u. split; [|assumption].
      eapply nth_error_In, Hm. }
    destruct i as [|i], j as [|j]; simpl in Hi, Hj.
    + congruence.
    + injection Hi as ->. exact (Hdisj a Hf (Hin j g a Hj Hg)).
    + injection Hj as ->. exact (Hdisj a Hg (Hin i f a Hi Hf)).
    + apply NoDup_app_remove_l in Hnd.
      exact (IH Hnd i j f g (fun E => Hij (f_equal S E)) Hi Hj a Hf Hg).
Qed.

End Slices.

Lemma fold_sizes_from (q r k s : nat) :
  list_sum (map (fun i => if (i <? r)%nat then (q + 1)%nat else q) (seq s k))
  = (k * q + Nat.min (r - s) k)%nat.
Proof.
  revert s. induction k as [|k IH]; intros s; simpl; [lia|].
  rewrite IH. destruct (Nat.ltb_spec s r); lia.
Qed.

Lemma fold_sizes_sum (n k : nat) :
  (0 < k)%nat -> list_sum (Sk.fold_sizes n k) = n.
Proof.
  intros Hk. unfold Sk.fold_sizes. rewrite fold_sizes_from.
  pose proof (Nat.mod_upper_bound n k ltac:(lia)) as Hr.
  pose proof (Nat.div_mod_eq n k) as Hd. lia.
Qed.

Lemma fold_sizes_bounds (n k sz : nat) :
  In sz (Sk.fold_sizes n k) -> (n / k <= sz <= n / k + 1)%nat.
Proof.
  unfold Sk.fold_sizes. intros H. apply in_map_iff in H as [i [<- _]].
  destruct (i <? n mod k)%nat; lia.
Qed.

Lemma iter_test_indices_concat (indices : list nat) (current : nat) (sizes : list nat) :
  concat (Sk.iter_test_indices indices current sizes)
  = firstn (list_sum sizes) (skipn current indices).
Proof.
  revert current. induction sizes as [|sz sizes IH]; intros current; simpl.
  - reflexivity.
  - rewrite IH, slice_firstn, firstn_add, skipn_skipn. do 3 f_equal. lia.
Qed.

Lemma iter_test_indices_lengths (indices : list nat) (current : nat) (sizes : list nat) :
  (current + list_sum sizes <= length indices)%nat ->
  map (@length nat) (Sk.iter_test_indices indices current sizes) = sizes.
Proof.
  revert current. induction sizes as [|sz sizes IH]; intros current Hle; simpl in *.
  - reflexivity.
  - rewrite IH by lia. rewrite slice_firstn, length_firstn, length_skipn.
    f_equal. lia.
Qed.

Lemma iter_test_indices_chunks (indices : list nat) (current : nat) (sizes : list nat)
      (chunk : list nat) :
  In chunk (Sk.iter_test_indices indices current sizes) ->
  exists c sz, chunk = firstn sz (skipn c indices).
Proof.
  revert current. induction sizes as [|sz sizes IH]; intros current; simpl.
  - contradiction.
  - intros [<-|H].
    + exists current, sz. apply slice_firstn.
    + exact (IH _ H).
Qed.

(** The held-out indices of a split are its chunk of the shuffled
    indices, in increasing order. *)
Lemma test_index_Permutation (n : nat) (chunk : list nat) :
  NoDup chunk -> incl chunk (Np.arange n) ->
  Permutation (snd (Sk.split_of_mask n (Sk.test_mask n chunk))) chunk.
Proof.
  intros Hnd Hincl. unfold Sk.split_of_mask, Sk.test_mask. cbn [snd].
  rewrite compress_filter.
  apply NoDup_Permutation; [apply NoDup_filter, seq_NoDup | assumption |].
  intros a. rewrite filter_In, existsb_exists. split.
  - intros [_ [b [Hb E]]]. apply Nat.eqb_eq in E. now subst.
  - intros Ha. split; [now apply Hincl|]. exists a. split; [assumption|].
    apply Nat.eqb_refl.
Qed.

Lemma split_of_mask_complement (n : nat) (chunk : list nat) :
  let sp := Sk.split_of_mask n (Sk.test_mask n chunk) in
  Permutation (fst sp ++ snd sp) (Np.arange n).
Proof.
  cbv zeta. unfold Sk.split_of_mask, Sk.test_mask. cbn [fst snd].
  rewrite map_map, !compress_filter.
  apply filter_complement_Permutation.
Qed.

Section KFoldPartition.

Variables (N k : nat) (indices : list nat).
Hypothesis Hk : (0 < k)%nat.
Hypothesis Hperm : Permutation indices (Np.arange N).

Let chunks := Sk.iter_test_indices indices 0 (Sk.fold_sizes N k).
Let fold_of (chunk : list nat) := snd (Sk.split_of_mask N (Sk.test_mask N chunk)).

Lemma indices_length : length indices = N.
Proof. rewrite (Permutation_length Hperm). apply length_seq. Qed.

Lemma indices_NoDup : NoDup indices.
Proof.
  apply (Permutation_NoDup (Permutation_sym Hperm)), seq_NoDup.
Qed.

Lemma chunk_lengths : map (@length nat) chunks = Sk.fold_sizes N k.
Proof.
  apply iter_test_indices_lengths.
  rewrite fold_sizes_sum by assumption. rewrite indices_length. lia.
Qed.

Lemma chunks_concat : concat chunks = indices.
Proof.
  unfold chunks. rewrite iter_test_indices_concat, fold_sizes_sum by assumption.
  cbn [skipn]. apply firstn_all2. rewrite indices_length. lia.
Qed.

Lemma chunk_fold (chunk : list nat) :
  In chunk chunks -> Permutation (fold_of chunk) chunk.
Proof.
  intros Hin. apply iter_test_indices_chunks in Hin as [c [sz ->]].
  apply test_index_Permutation.
  - apply NoDup_slice, indices_NoDup.
  - intros a Ha. apply In_slice in Ha.
    exact (Permutation_in a Hperm Ha).
Qed.

Lemma folds_chunks (l : list (list nat)) :
  incl l chunks -> Forall2 (@Permutation nat) (map fold_of l) l.
Proof.
  induction l as [|c l IH]; intros Hincl; simpl; constructor.
  - apply chunk_fold, Hincl. now left.
  - apply IH. intros a Ha. apply Hincl. now right.
Qed.

Lemma folds_are_map :
  map snd (Sk.KFold_split_indices k N indices) = map fold_of chunks.
Proof. unfold Sk.KFold_split_indices. now rewrite map_map. Qed.

Lemma folds_concat :
  Permutation (concat (map snd (Sk.KFold_split_indices k N indices))) (Np.arange N).
Proof.
  rewrite folds_are_map.
  apply Permutation_trans with (concat chunks).
  - apply concat_Permutation, folds_chunks, incl_refl.
  - rewrite chunks_concat. exact Hperm.
Qed.

Lemma folds_count : length (map snd (Sk.KFold_split_indices k N indices)) = k.
Proof.
  rewrite folds_are_map, length_map.
  rewrite <- (length_map (@length nat) chunks), chunk_lengths.
  unfold Sk.fold_sizes. now rewrite length_map, length_seq.
Qed.

Lemma fold_length_bounds (f : list nat) :
  In f (map snd (Sk.KFold_split_indices k N indices)) ->
  (N / k <= length f <= N / k + 1)%nat.
Proof.
  rewrite folds_are_map. intros Hin.
  apply in_map_iff in Hin as [chunk [<- Hin]].
  rewrite (Permutation_length (chunk_fold chunk Hin)).
  apply (fold_sizes_bounds N k). rewrite <- chunk_lengths.
  now apply in_map.
Qed.

Lemma split_train_test (tr te : list nat) :
  In (tr, te) (Sk.KFold_split_indices k N indices) ->
  Permutation (tr ++ te) (Np.arange N).
Proof.
  unfold Sk.KFold_split_indices. intros Hin.
  apply in_map_iff in Hin as [chunk [E _]].
  pose proof (split_of_mask_complement N chunk) as H. cbv zeta in H.
  now rewrite E in H.
Qed.

End KFoldPartition.

Lemma half_split_lengths {A : Type} (X : list A) :
  length (TutorialCE.first_half X) = (length X / 2)%nat
  /\ length (TutorialCE.second_half X) = (length X - length X / 2)%nat.
Proof.
  unfold TutorialCE.first_half, TutorialCE.second_half.
  rewrite length_firstn, length_skipn.
  pose proof (Nat.div_mod_eq (length X) 2) as Hd. lia.
Qed.

(** C6. With [2 <= k <= N], and a shuffle that permutes the index array,
    [KFold(n_splits=k, shuffle=True).split] succeeds and its [k] held-out
    folds are pairwise disjoint, cover the [N] indices, have sizes that sum
    to [N] and lie between [N / k] and [N / k + 1]; every training part is
    the complement of its fold.  The two halves [X[: len(X)//2]] and
    [X[len(X)//2 :]] of the tutorial split the sample in the same way. *)
Theorem folds_partition_the_sample (R : RandomState) (N k : nat) (g : rng R) :
  (2 <= k <= N)%nat ->
  Permutation (fst (shuffle R (Np.arange N) g)) (Np.arange N) ->
  (exists splits g',
      Sk.KFold_split R k N g = Ok (splits, g')
      /\ let folds := map snd splits in
         length folds = k
         /\ Permutation (concat folds) (Np.arange N)
         /\ (forall i j f f', i <> j ->
               nth_error folds i = Some f -> nth_error folds j = Some f' ->
               forall a, In a f -> ~ In a f')
         /\ list_sum (map (@length nat) folds) = N
         /\ (forall f, In f folds -> (N / k <= length f <= N / k + 1)%nat)
         /\ (forall tr te, In (tr, te) splits ->
               Permutation (tr ++ te) (Np.arange N)))
  /\ (let ds1 := TutorialCE.first_half (Np.arange N) in
      let ds2 := TutorialCE.second_half (Np.arange N) in
      ds1 ++ ds2 = Np.arange N
      /\ (forall a, In a ds1 -> ~ In a ds2)
      /\ (length ds1 + length ds2 = N)%nat
      /\ (length ds1 <= length ds2 <= length ds1 + 1)%nat
      /\ forall (A : Type) (X : list A), length X = N ->
           TutorialCE.first_half X ++ TutorialCE.second_half X = X
           /\ length (TutorialCE.first_half X) = length ds1
           /\ length (TutorialCE.second_half X) = length ds2).
Proof.
  intros [Hk2 HkN] Hperm. split.
  - unfold Sk.KFold_split.
    destruct (Nat.leb_spec k 1) as [|_]; [lia|].
    destruct (Nat.ltb_spec N k) as [|_]; [lia|].
    destruct (shuffle R (Np.arange N) g) as [indices g'] eqn:E.
    cbn [fst] in Hperm.
    exists (Sk.KFold_split_indices k N indices), g'. split; [reflexivity|].
    assert (Hk : (0 < k)%nat) by lia.
    pose proof (folds_concat N k indices Hk Hperm) as Hcat.
    cbv zeta. repeat split.
    + now apply folds_count.
    + exact Hcat.
    + apply concat_NoDup_disjoint.
      apply (Permutation_NoDup (Permutation_sym Hcat)), seq_NoDup.
    + rewrite <- length_concat, (Permutation_length Hcat). apply length_seq.
    + now apply (fold_length_bounds N k indices Hk Hperm).
    + now apply (fold_length_bounds N k indices Hk Hperm).
    + intros tr te. apply split_train_test.
  - cbv zeta.
    pose proof (half_split_lengths (Np.arange N)) as [H1 H2].
    unfold Np.arange in *. rewrite length_seq in H1, H2.
    pose proof (Nat.div_mod_eq N 2) as Hd.
    pose proof (Nat.mod_upper_bound N 2 ltac:(lia)) as Hm.
    split; [apply firstn_skipn|].
    split.
    { apply NoDup_app_disjoint.
      unfold TutorialCE.first_half, TutorialCE.second_half.
      rewrite firstn_skipn. apply seq_NoDup. }
    split; [lia|]. split; [lia|].
    intros A X HX. destruct (half_split_lengths X) as [HX1 HX2].
    split; [apply firstn_skipn|].
    rewrite HX1, HX2, H1, H2, HX. split; reflexivity.
Qed.

Lemma folds_partition_the_sample_witness :
  exists splits g',
    Sk.KFold_split counter_random_state 2 5 0%Z = Ok (splits, g')
    /\ length (map snd splits) = 2%nat
    /\ Permutation (concat (map snd splits)) (Np.arange 5).
Proof.
  destruct (folds_partition_the_sample counter_random_state 5 2 0%Z)
    as [[splits [g' [E [Hlen [Hcat _]]]]] _].
  - lia.
  - apply Permutation_sym, Permutation_rev.
  - exists splits, g'. repeat split; assumption.
Defined.

(** ** Randomness *)

Section Seeding.

Variable R : RandomState.
Variable fit : list Np.row -> list Qc -> CondMean.regressor.

(** [data_gen] starts by seeding: what it returns, the state it leaves
    included, does not depend on the state it finds. *)
Lemma data_gen_seeded (N : nat) (beta : list Qc) (seed : Z) (g g' : rng R) :
  KFoldCE.data_gen R N beta seed g = KFoldCE.data_gen R N beta seed g'.
Proof. reflexivity. Qed.


End Seeding.


(** A replicate does return estimates: five observations in two folds,
    drawn and shuffled by the counter generator from seed 1. *)
Lemma replicate_returns_example :
  exists est g',
    KFoldCE.replicate_misspecified counter_random_state KFoldCE.ols_first_column
      2 5 KFoldCE.beta 1%Z 0%Z
    = Ok (est, g').
Proof.
  destruct (KFoldCE.replicate_misspecified counter_random_state
              KFoldCE.ols_first_column 2 5 KFoldCE.beta 1%Z 0%Z)
    as [[est g']|e] eqn:E.
  - now exists est, g'.
  - vm_compute in E. discriminate E.
Qed.

(** The tutorial notebook, by contrast, never seeds: its [data_gen]
    returns what the state it finds dictates. *)
Lemma tutorial_data_gen_reads_the_state :
  fst (TutorialCE.data_gen counter_random_state id_fn 1 KFoldCE.beta 0%Z)
  <> fst (TutorialCE.data_gen counter_random_state id_fn 1 KFoldCE.beta 1%Z).
Proof.
  intros H. apply (f_equal (fun d => map (map this) (fst (fst (fst d))))) in H.
  vm_compute in H. discriminate H.
Qed.

(** ** The entropy notebook *)

Section EntropyFacts.

Variables ln exp : Qc -> Qc.
Variable KernelDensity_fit : list Qc -> (Qc -> Qc).

Lemma forward_nu (a dx : Qc) :
  Entropy.forward ln (Entropy.nu_graph dx) a = - a * ln (a / dx).
Proof. reflexivity. Qed.

(** What autograd leaves in [.grad] for [nu]: the analytic derivative
    [- log(a/dx) - 1], wherever [a] and [dx] are not zero. *)
Lemma backward_nu (a dx : Qc) :
  a <> 0 -> dx <> 0 ->
  Entropy.backward ln (Entropy.nu_graph dx) a 1 = Entropy.nu_prime ln dx a.
Proof.
  intros Ha Hdx. unfold Entropy.nu_prime. cbn [Entropy.nu_graph Entropy.backward Entropy.forward].
  generalize (ln (a / dx)). intros l. field. auto.
Qed.

Lemma backward_phi (b : Qc) :
  Entropy.backward ln Entropy.phi_graph b 1 = Entropy.phi_prime b.
Proof. reflexivity. Qed.

Lemma entropy_sum (p : list Qc) (dx : Qc) :
  Entropy.entropy ln p dx = Np.sum (map (fun a => - a * ln (a / dx)) p).
Proof. unfold Entropy.entropy, Entropy.nu, Entropy.phi. reflexivity. Qed.

Lemma grad_data_nu (p : list Qc) (dx : Qc) :
  dx <> 0 -> Forall (fun a => a <> 0) p ->
  Entropy.grad_data ln (Entropy.nu_graph dx) p = map (Entropy.nu_prime ln dx) p.
Proof.
  intros Hdx Hp. unfold Entropy.grad_data. apply map_ext_in.
  intros a Ha. rewrite Forall_forall in Hp. apply backward_nu; auto.
Qed.

Lemma multiply_map (f : Qc -> Qc) (p : list Qc) :
  KFoldCE.multiply p (map f p) = map (fun a => a * f a) p.
Proof. induction p as [|a p IH]; simpl; [reflexivity | now rewrite IH]. Qed.

Lemma density_nonzero (kde : Qc -> Qc) (a : list Qc) (dx : Qc) :
  dx <> 0 -> (forall r, exp (kde r) <> 0) ->
  Forall (fun v => v <> 0) (Entropy.density exp kde a dx).
Proof.
  intros Hdx Hexp. unfold Entropy.density. apply Forall_forall.
  intros v Hv. apply in_map_iff in Hv as [r [<- _]].
  intros E. apply Qcmult_integral in E as [E|E]; [exact (Hexp r E) | exact (Hdx E)].
Qed.

(** The correction of the first split is the specification's, with the
    density fitted on the first half and the second half held out. *)
Lemma psi_ds1_correct (x : list Qc) (dx : Qc) :
  dx <> 0 ->
  (forall r, exp (KernelDensity_fit (TutorialCE.first_half x) r) <> 0) ->
  Entropy.psi_ds1 ln exp KernelDensity_fit x dx
  = Entropy.spec_correction ln exp KernelDensity_fit dx
      (TutorialCE.first_half x) (TutorialCE.second_half x).
Proof.
  intros Hdx Hpos.
  unfold Entropy.psi_ds1, Entropy.spec_correction, Entropy.A_ds1, Entropy.B_ds1,
    Entropy.C_ds1, Entropy.spec_A, Entropy.spec_B, Entropy.spec_C,
    Entropy.nu_pr_p_xi_ds2, Entropy.nu_pr_p_ds1, Entropy.p_xi_ds2,
    Entropy.p_r_ds1, Entropy.r_ds1, Entropy.kde_ds1, Entropy.x1, Entropy.x2.
  rewrite !grad_data_nu by (auto using density_nonzero).
  now rewrite multiply_map.
Qed.

End EntropyFacts.

(** C3 fails on the entropy notebook: whatever the sample, the density
    estimator and the grid width, the plug-in estimate [est_ds2] of the
    second split is the plug-in value of the density fitted on the first
    half of the sample ([p_r_ds2] is built from [kde_ds1]); it equals
    [est_ds1] and the second half does not enter it. *)
Theorem est_ds2_is_fitted_on_split_1
        (ln exp : Qc -> Qc) (KernelDensity_fit : list Qc -> (Qc -> Qc))
        (x : list Qc) (dx : Qc) :
  Entropy.est_ds2 ln exp KernelDensity_fit x dx
  = Entropy.spec_plug_in ln exp KernelDensity_fit dx (TutorialCE.first_half x)
  /\ Entropy.est_ds2 ln exp KernelDensity_fit x dx
     = Entropy.est_ds1 ln exp KernelDensity_fit x dx.
Proof.
  split; [|reflexivity].
  unfold Entropy.est_ds2. rewrite entropy_sum. reflexivity.
Qed.

(** On the sample [[1, 2]] with grid width 1 and the stand-in estimator,
    the notebook's [est_ds2] is -20, the plug-in value of the density
    fitted on the second half is -80. *)
Lemma est_ds2_example :
  Entropy.est_ds2 id_fn id_fn constant_kde [1; 1 + 1] 1 = Q2Qc (-20 # 1)
  /\ Entropy.spec_plug_in id_fn id_fn constant_kde 1 (TutorialCE.second_half [1; 1 + 1])
     = Q2Qc (-80 # 1).
Proof. split; apply Qc_is_canon; vm_compute; reflexivity. Qed.

(** C5 fails on the second split of the entropy notebook.  Where the
    densities are not zero the correction of the first split is the
    specification's [A (B - C)], but in the correction of the second
    split [B] averages over the first half with the density fitted on the
    second half while [A] and [C] are computed from the density fitted on
    the first half. *)
Theorem psi_ds2_mixes_the_densities
        (ln exp : Qc -> Qc) (KernelDensity_fit : list Qc -> (Qc -> Qc))
        (x : list Qc) (dx : Qc) :
  dx <> 0 ->
  (forall r, exp (KernelDensity_fit (TutorialCE.first_half x) r) <> 0) ->
  (forall r, exp (KernelDensity_fit (TutorialCE.second_half x) r) <> 0) ->
  Entropy.psi_ds2 ln exp KernelDensity_fit x dx
  = Entropy.spec_A ln exp KernelDensity_fit dx (TutorialCE.first_half x)
    * (Entropy.spec_B ln exp KernelDensity_fit dx
         (TutorialCE.second_half x) (TutorialCE.first_half x)
       - Entropy.spec_C ln exp KernelDensity_fit dx (TutorialCE.first_half x)).
Proof.
  intros Hdx Hpos1 Hpos2.
  unfold Entropy.psi_ds2, Entropy.A_ds2, Entropy.B_ds2,
    Entropy.C_ds2, Entropy.spec_A, Entropy.spec_B, Entropy.spec_C,
    Entropy.nu_pr_p_xi_ds1, Entropy.nu_pr_p_ds2, Entropy.p_xi_ds1,
    Entropy.p_r_ds2, Entropy.r_ds2, Entropy.kde_ds1, Entropy.kde_ds2,
    Entropy.x1, Entropy.x2.
  rewrite !grad_data_nu by (auto using density_nonzero).
  now rewrite multiply_map.
Qed.

Lemma psi_ds2_mixes_the_densities_witness :
  Entropy.psi_ds2 id_fn id_fn constant_kde [1; 1 + 1] 1
  = Entropy.spec_A id_fn id_fn constant_kde 1 [1]
    * (Entropy.spec_B id_fn id_fn constant_kde 1 [1 + 1] [1]
       - Entropy.spec_C id_fn id_fn constant_kde 1 [1]).
Proof.
  apply (psi_ds2_mixes_the_densities id_fn id_fn constant_kde [1; 1 + 1] 1).
  - intros H. discriminate H.
  - intros r H. discriminate H.
  - intros r H. discriminate H.
Defined.

(** On the same sample the notebook's [psi_ds2] and the specification's
    correction for the second split differ. *)
Lemma psi_ds2_example :
  Entropy.psi_ds2 id_fn id_fn constant_kde [1; 1 + 1] 1
  <> Entropy.spec_correction id_fn id_fn constant_kde 1
       (TutorialCE.second_half [1; 1 + 1]) (TutorialCE.first_half [1; 1 + 1]).
Proof.
  intros H. apply (f_equal this) in H. vm_compute in H. discriminate H.
Qed.

(* ================================================================== *)
(** * Further properties of the notebooks *)
(* ================================================================== *)

(** ** [pmf] on an arbitrary table *)





(** ** A held-out fold and its average influence value *)

Lemma sum_repeat_0 (n : nat) : Np.sum (repeat 0 n) = 0.
Proof.
  induction n as [|n IH]; [reflexivity|].
  unfold Np.sum in *. cbn [repeat fold_right]. rewrite IH. ring.
Qed.

Lemma map_const_repeat {A B : Type} (c : B) (l : list A) :
  map (fun _ => c) l = repeat c (length l).
Proof. induction l as [|a l IH]; [reflexivity|]. cbn. now rewrite IH. Qed.

Lemma combine_In_l {A B : Type} (l : list A) (l' : list B) (a : A) (b : B) :
  In (a, b) (combine l l') -> In a l.
Proof. apply in_combine_l. Qed.

Lemma influence_values_no_match
      (reg : CondMean.regressor) (x_star : Np.row)
      (cats : list Np.row) (p_cats : list Qc)
      (X_test : list Np.row) (y_test : list Qc) :
  ~ In x_star X_test ->
  length y_test = length X_test ->
  CondMean.influence_values reg x_star cats p_cats X_test y_test
  = Ok (repeat 0 (length X_test)).
Proof.
  intros Hnot Hlen. rewrite influence_values_map by assumption.
  rewrite map_result_Ok with (g := fun _ => 0).
  - f_equal. rewrite map_const_repeat, length_combine, Hlen. f_equal. lia.
  - intros [x yv] Hin. cbn [fst snd]. apply influence_value_off_query.
    intros ->. apply Hnot. eapply combine_In_l, Hin.
Qed.

Lemma influence_values_observed
      (reg : CondMean.regressor) (x_star : Np.row) (train : list Np.row)
      (X_test : list Np.row) (y_test : list Qc) :
  In x_star train ->
  length y_test = length X_test ->
  CondMean.influence_values reg x_star (fst (Np.unique train))
    (CondMean.normalize (snd (Np.unique train)) (length train)) X_test y_test
  = Ok (map (fun o => if Np.row_eqb (fst o) x_star
                      then 1 / CondMean.empirical_frequency x_star train
                           * (snd o - reg x_star)
                      else 0)
            (combine X_test y_test)).
Proof.
  intros Hin Hlen. rewrite influence_values_map by assumption.
  apply map_result_Ok. intros [x yv] _. cbn [fst snd].
  destruct (Np.row_eqb x x_star) eqn:E.
  - apply row_eqb_eq in E. subst x. rewrite influence_value_on_query.
    apply occurrences_In in Hin. destruct (occurrences x_star train); [lia | reflexivity].
  - apply influence_value_off_query. intros ->. now rewrite row_eqb_refl in E.
Qed.

Lemma influence_values_unobserved
      (reg : CondMean.regressor) (x_star : Np.row) (train : list Np.row)
      (X_test : list Np.row) (y_test : list Qc) :
  ~ In x_star train ->
  In x_star X_test ->
  length y_test = length X_test ->
  CondMean.influence_values reg x_star (fst (Np.unique train))
    (CondMean.normalize (snd (Np.unique train)) (length train)) X_test y_test
  = Raise IndexError.
Proof.
  intros Hnot Hin Hlen. apply occurrences_not_In in Hnot.
  assert (Hq : forall yv, CondMean.influence_value reg x_star (fst (Np.unique train))
                 (CondMean.normalize (snd (Np.unique train)) (length train)) x_star yv
               = Raise IndexError).
  { intros yv. now rewrite influence_value_on_query, Hnot. }
  rewrite influence_values_map by assumption.
  apply map_result_Raise.
  - intros [x yv] _. cbn [fst snd].
    destruct (CondMean.list_row_eq_dec x x_star) as [->|Hne].
    + left. apply Hq.
    + right. exists 0. now apply influence_value_off_query.
  - destruct (In_combine_l X_test y_test x_star Hlen Hin) as [yv Hyv].
    exists (x_star, yv). split; [assumption | apply Hq].
Qed.

(** When no held-out observation is at the query vector the loop never
    calls [pmf]: whatever the table (an empty one, or one without the
    query vector) it returns one 0 for each observation, and the average
    influence value of the fold is 0. *)
Theorem influence_values_without_match
        (reg : CondMean.regressor) (x_star : Np.row)
        (cats : list Np.row) (p_cats : list Qc)
        (X_test : list Np.row) (y_test : list Qc) :
  ~ In x_star X_test ->
  length y_test = length X_test ->
  CondMean.influence_values reg x_star cats p_cats X_test y_test
  = Ok (repeat 0 (length X_test))
  /\ Np.mean (repeat 0 (length X_test)) = 0.
Proof.
  intros Hnot Hlen. split.
  - now apply influence_values_no_match.
  - unfold Np.mean. rewrite sum_repeat_0. unfold Qcdiv. ring.
Qed.

Lemma influence_values_without_match_witness :
  CondMean.influence_values (fun _ => 1) [1; 0] [] [] [[0; 1]; [1; 1]] [1; 1 + 1]
  = Ok [0; 0].
Proof.
  apply (influence_values_without_match (fun _ => 1) [1; 0] [] []
           [[0; 1]; [1; 1]] [1; 1 + 1]).
  - intros [H|[H|[]]]; injection H; intros; discriminate.
  - reflexivity.
Defined.

Lemma sum_map_scaled {A : Type} (f : A -> Qc) (c : Qc) (l : list A) :
  Np.sum (map (fun a => c * f a) l) = c * Np.sum (map f l).
Proof.
  induction l as [|a l IH]; unfold Np.sum in *; cbn [map fold_right].
  - ring.
  - rewrite IH. ring.
Qed.

Lemma sum_at_query (reg : CondMean.regressor) (x_star : Np.row) (c : Qc)
      (obs : list (Np.row * Qc)) :
  Np.sum (map (fun o => if Np.row_eqb (fst o) x_star
                        then c * (snd o - reg x_star) else 0) obs)
  = c * residual_sum reg x_star obs.
Proof.
  unfold residual_sum.
  induction obs as [|o obs IH]; unfold Np.sum in *; cbn [map filter fold_right].
  - ring.
  - rewrite IH. destruct (Np.row_eqb (fst o) x_star); cbn [map fold_right]; ring.
Qed.

(** The average influence value of a held-out fold is the sum of the
    residuals [y - reg(x_star)] of its observations at the query vector,
    divided by the frequency of the query vector in the training fold and
    by the size of the held-out fold. *)
Theorem fold_average_influence
        (reg : CondMean.regressor) (x_star : Np.row) (train : list Np.row)
        (X_test : list Np.row) (y_test : list Qc) :
  In x_star train ->
  length y_test = length X_test ->
  exists all_phi,
    CondMean.influence_values reg x_star (fst (Np.unique train))
      (CondMean.normalize (snd (Np.unique train)) (length train)) X_test y_test
    = Ok all_phi
    /\ length all_phi = length X_test
    /\ Np.mean all_phi
       = residual_sum reg x_star (combine X_test y_test)
         / CondMean.empirical_frequency x_star train
         / Np.of_nat (length X_test).
Proof.
  intros Hin Hlen.
  set (P := CondMean.empirical_frequency x_star train).
  set (value := fun o : Np.row * Qc =>
                  if Np.row_eqb (fst o) x_star
                  then 1 / P * (snd o - reg x_star) else 0).
  exists (map value (combine X_test y_test)).
  assert (Hlen' : length (map value (combine X_test y_test)) = length X_test).
  { rewrite length_map, length_combine, Hlen. lia. }
  split; [|split; [exact Hlen'|]].
  - now apply influence_values_observed.
  - unfold Np.mean. rewrite Hlen'. unfold value.
    rewrite sum_at_query. unfold Qcdiv. ring.
Qed.

Lemma fold_average_influence_witness :
  exists all_phi,
    CondMean.influence_values (fun _ => 1) [1; 0]
      (fst (Np.unique [[1; 0]; [0; 1]]))
      (CondMean.normalize (snd (Np.unique [[1; 0]; [0; 1]])) 2)
      [[1; 0]; [1; 1]] [1 + 1 + 1; 1]
    = Ok all_phi
    /\ length all_phi = 2%nat.
Proof.
  destruct (fold_average_influence (fun _ => 1) [1; 0] [[1; 0]; [0; 1]]
              [[1; 0]; [1; 1]] [1 + 1 + 1; 1]) as [all_phi [H [Hl _]]].
  - left. reflexivity.
  - reflexivity.
  - exists all_phi. split; assumption.
Defined.

(** ** One fold of the k-fold loop *)

Lemma map_result_length {A B : Type} (f : A -> result B) (l : list A) (r : list B) :
  map_result f l = Ok r -> length r = length l.
Proof.
  revert r. induction l as [|a l IH]; intros r; simpl.
  - now intros [= <-].
  - destruct (f a); [|discriminate]. cbn [bind].
    destruct (map_result f l) as [r'|]; [|discriminate]. cbn [bind].
    intros [= <-]. simpl. now rewrite (IH r' eq_refl).
Qed.

(** A fold of the loop fails exactly when it holds out an observation at
    the query vector while its training part has none, and then with
    [IndexError]; otherwise it returns the prediction of the regressor fitted
    on its training part and one influence value for each held-out
    observation. *)
Theorem fold_estimates_outcome
        (fit : list Np.row -> list Qc -> CondMean.regressor)
        (X : list Np.row) (y : list Qc) (cond_X : Np.row)
        (train_index test_index : list nat)
        (X_train X_test : list Np.row) (y_train y_test : list Qc) :
  Np.take X train_index = Ok X_train ->
  Np.take X test_index = Ok X_test ->
  Np.take y train_index = Ok y_train ->
  Np.take y test_index = Ok y_test ->
  (In cond_X X_test /\ ~ In cond_X X_train ->
   KFoldCE.fold_estimates fit X y cond_X (train_index, test_index) = Raise IndexError)
  /\ (~ In cond_X X_test \/ In cond_X X_train ->
      exists all_phi,
        KFoldCE.fold_estimates fit X y cond_X (train_index, test_index)
        = Ok (fit X_train y_train cond_X, all_phi)
        /\ length all_phi = length test_index).
Proof.
  intros HXtr HXte Hytr Hyte.
  assert (Hlen : length y_test = length X_test).
  { unfold Np.take in *. now rewrite (map_result_length _ _ _ Hyte),
      (map_result_length _ _ _ HXte). }
  assert (Hlen' : length X_test = length test_index).
  { unfold Np.take in *. exact (map_result_length _ _ _ HXte). }
  unfold KFoldCE.fold_estimates. rewrite HXtr, HXte, Hytr, Hyte. cbn [bind].
  destruct (Np.unique X_train) as [cats counts] eqn:Eu.
  replace cats with (fst (Np.unique X_train)) by now rewrite Eu.
  replace counts with (snd (Np.unique X_train)) by now rewrite Eu.
  split.
  - intros [Hte Htr]. now rewrite influence_values_unobserved.
  - intros [Hte|Htr].
    + rewrite influence_values_no_match by assumption. cbn [bind].
      eexists. split; [reflexivity|]. now rewrite repeat_length.
    + rewrite influence_values_observed by assumption. cbn [bind].
      eexists. split; [reflexivity|].
      rewrite length_map, length_combine, Hlen, <- Hlen'. lia.
Qed.

Lemma fold_estimates_outcome_witness :
  exists all_phi,
    KFoldCE.fold_estimates KFoldCE.ols_first_column KFoldCE.X_small KFoldCE.y_small
      KFoldCE.cond_X_est ([2; 3]%nat, [0; 1]%nat)
    = Ok (1 + 1, all_phi)
    /\ length all_phi = 2%nat.
Proof.
  destruct (fold_estimates_outcome KFoldCE.ols_first_column KFoldCE.X_small
              KFoldCE.y_small KFoldCE.cond_X_est [2; 3]%nat [0; 1]%nat
              [[1; 0; 1; 0]; [0; 0; 1; 0]] [[1; 0; 1; 0]; [0; 0; 1; 0]]
              [1 + 1; 1] [0; 1] eq_refl eq_refl eq_refl eq_refl) as [_ H].
  destruct H as [all_phi [E Hl]].
  - right. left. reflexivity.
  - exists all_phi. split; [|exact Hl].
    rewrite E. do 2 f_equal. apply Qc_is_canon. vm_compute. reflexivity.
Defined.

(** ** What the k-fold loop returns *)

Lemma fold_estimates_prediction
      (fit : list Np.row -> list Qc -> CondMean.regressor)
      (X : list Np.row) (y : list Qc) (cond_X : Np.row)
      (split : list nat * list nat) (psi : Qc) (all_phi : list Qc) :
  KFoldCE.fold_estimates fit X y cond_X split = Ok (psi, all_phi) ->
  fold_prediction fit X y cond_X split = Ok psi.
Proof.
  destruct split as [tr te]. unfold KFoldCE.fold_estimates, fold_prediction. cbn [fst].
  destruct (Np.take X tr) as [Xtr|]; [|discriminate]. cbn [bind].
  destruct (Np.take X te) as [Xte|]; [|discriminate]. cbn [bind].
  destruct (Np.take y tr) as [ytr|]; [|discriminate]. cbn [bind].
  destruct (Np.take y te) as [yte|]; [|discriminate]. cbn [bind].
  destruct (Np.unique Xtr) as [cats counts].
  destruct (CondMean.influence_values _ _ _ _ _ _); [|discriminate].
  cbn [bind]. now intros [= <- _].
Qed.

Lemma map_fold_prediction
      (fit : list Np.row -> list Qc -> CondMean.regressor)
      (X : list Np.row) (y : list Qc) (cond_X : Np.row)
      (splits : list (list nat * list nat)) (per_fold : list (Qc * list Qc)) :
  map_result (KFoldCE.fold_estimates fit X y cond_X) splits = Ok per_fold ->
  map_result (fold_prediction fit X y cond_X) splits = Ok (map fst per_fold).
Proof.
  revert per_fold. induction splits as [|sp splits IH]; intros per_fold; simpl.
  - now intros [= <-].
  - destruct (KFoldCE.fold_estimates fit X y cond_X sp) as [[psi all_phi]|] eqn:E;
      [|discriminate].
    cbn [bind]. rewrite (fold_estimates_prediction _ _ _ _ _ _ _ E). cbn [bind].
    destruct (map_result (KFoldCE.fold_estimates fit X y cond_X) splits) as [per|];
      [|discriminate].
    cbn [bind]. intros [= <-]. now rewrite (IH per eq_refl).
Qed.

(** The plug-in estimate a successful run returns is the mean, over the
    folds, of the prediction at the query vector of the regressor fitted
    on that fold's training rows [X[train_index]], [y[train_index]]; the
    held-out rows of a fold do not enter its prediction. *)
Theorem cross_fit_plug_in
        (fit : list Np.row -> list Qc -> CondMean.regressor)
        (X : list Np.row) (y : list Qc) (cond_X : Np.row)
        (splits : list (list nat * list nat)) (psi psi_est_updated : Qc) :
  KFoldCE.cross_fit fit X y cond_X splits = Ok (psi, psi_est_updated) ->
  exists predictions,
    map_result (fold_prediction fit X y cond_X) splits = Ok predictions
    /\ length predictions = length splits
    /\ psi = Np.mean predictions.
Proof.
  rewrite cross_fit_unfold.
  destruct (map_result (KFoldCE.fold_estimates fit X y cond_X) splits) as [per|] eqn:E;
    [|discriminate].
  cbn [bind]. destruct splits as [|sp splits]; [discriminate|].
  intros [= <- _]. exists (map fst per). split; [|split].
  - now apply map_fold_prediction.
  - rewrite length_map. exact (map_result_length _ _ _ E).
  - reflexivity.
Qed.

Lemma cross_fit_plug_in_witness :
  exists predictions,
    map_result (fold_prediction KFoldCE.ols_first_column KFoldCE.X_small
                  KFoldCE.y_small KFoldCE.cond_X_est)
               [([2; 3]%nat, [0; 1]%nat); ([0; 1]%nat, [2; 3]%nat)]
    = Ok predictions
    /\ length predictions = 2%nat
    /\ 1 = Np.mean predictions.
Proof.
  apply (cross_fit_plug_in KFoldCE.ols_first_column KFoldCE.X_small KFoldCE.y_small
           KFoldCE.cond_X_est [([2; 3]%nat, [0; 1]%nat); ([0; 1]%nat, [2; 3]%nat)]
           1 (1 + 1 + 1)).
  apply (dec_true (estimate_eq_dec _ _)). vm_compute. reflexivity.
Defined.

Lemma cross_fit_last_fold_witness :
  exists psi_last all_phi,
    KFoldCE.fold_estimates KFoldCE.ols_first_column KFoldCE.X_small KFoldCE.y_small
      KFoldCE.cond_X_est ([0; 1]%nat, [2; 3]%nat)
    = Ok (psi_last, all_phi)
    /\ 1 + 1 + 1 = 1 + Np.mean all_phi.
Proof.
  apply (cross_fit_last_fold KFoldCE.ols_first_column KFoldCE.X_small KFoldCE.y_small
           KFoldCE.cond_X_est [([2; 3]%nat, [0; 1]%nat)] ([0; 1]%nat, [2; 3]%nat)
           1 (1 + 1 + 1)).
  apply (dec_true (estimate_eq_dec _ _)). vm_compute. reflexivity.
Defined.

(** ** The rows of a split *)

Lemma take_in_range {A : Type} (a : list A) (idx : list nat) :
  (forall i, In i idx -> (i < length a)%nat) ->
  exists l, Np.take a idx = Ok l /\ map Some l = map (nth_error a) idx.
Proof.
  induction idx as [|i idx IH]; intros Hall.
  - exists []. split; reflexivity.
  - destruct IH as [l [Hl Hmap]]; [intros j Hj; apply Hall; now right|].
    assert (Hi : (i < length a)%nat) by (apply Hall; now left).
    destruct (nth_error a i) as [v|] eqn:Ev;
      [|apply nth_error_None in Ev; lia].
    exists (v :: l). unfold Np.take in *. cbn [map_result map]. unfold Np.item at 1.
    rewrite Ev. cbn [bind]. rewrite Hl. cbn [bind]. split; [reflexivity|].
    now rewrite Hmap.
Qed.

Lemma take_out_of_range {A : Type} (a : list A) (idx : list nat) :
  (exists i, In i idx /\ (length a <= i)%nat) -> Np.take a idx = Raise IndexError.
Proof.
  induction idx as [|j idx IH]; intros [i [Hin Hi]]; [contradiction|].
  unfold Np.take in *. cbn [map_result]. unfold Np.item at 1.
  destruct (nth_error a j) as [v|] eqn:Ev; [|reflexivity].
  cbn [bind]. rewrite IH; [reflexivity|].
  destruct Hin as [->|Hin]; [|now exists i].
  apply nth_error_None in Hi. congruence.
Qed.

Lemma map_nth_error_seq {A : Type} (a : list A) :
  map (nth_error a) (seq 0 (length a)) = map Some a.
Proof.
  induction a as [|v a IH]; [reflexivity|].
  cbn [length seq map nth_error]. f_equal.
  rewrite <- seq_shift, map_map. exact IH.
Qed.

Lemma map_Some_inj {A : Type} (l l' : list A) : map Some l = map Some l' -> l = l'.
Proof.
  revert l'. induction l as [|a l IH]; intros [|b l'] H; try discriminate.
  - reflexivity.
  - injection H as -> H. now rewrite (IH l' H).
Qed.

(** Fancy indexing [a[idx]] succeeds exactly when every index is within
    the array, returns the entries in the order of [idx], and raises
    [IndexError] otherwise. *)
Theorem take_spec {A : Type} (a : list A) (idx : list nat) :
  ((forall i, In i idx -> (i < length a)%nat) ->
   exists l, Np.take a idx = Ok l
             /\ length l = length idx
             /\ forall n i, nth_error idx n = Some i -> nth_error l n = nth_error a i)
  /\ ((exists i, In i idx /\ (length a <= i)%nat) -> Np.take a idx = Raise IndexError).
Proof.
  split; [|apply take_out_of_range].
  intros Hall. destruct (take_in_range a idx Hall) as [l [Hl Hmap]].
  exists l. split; [exact Hl|]. split.
  - rewrite <- (length_map Some l), Hmap. apply length_map.
  - intros n i Hn.
    pose proof (f_equal (fun m => nth_error m n) Hmap) as H. cbn beta in H.
    rewrite !nth_error_map, Hn in H. cbn [option_map] in H.
    destruct (nth_error l n) as [v|] eqn:Ev; cbn [option_map] in H.
    + now injection H.
    + discriminate.
Qed.

Lemma take_spec_witness :
  exists l, Np.take [1; 1 + 1; 1 + 1 + 1] [2; 0]%nat = Ok l /\ length l = 2%nat.
Proof.
  destruct (proj1 (take_spec [1; 1 + 1; 1 + 1 + 1] [2; 0]%nat)) as [l [H [Hl _]]].
  - intros i [<-|[<-|[]]]; simpl; lia.
  - exists l. split; assumption.
Defined.

(** In every split of [KFold] the training rows and the held-out rows,
    put together, are a rearrangement of the whole sample: indexing with a
    split never fails, and no observation is lost or used twice. *)
Theorem kfold_rows_partition {A : Type} (X : list A) (k : nat) (indices : list nat)
        (train_index test_index : list nat) :
  (0 < k)%nat ->
  Permutation indices (Np.arange (length X)) ->
  In (train_index, test_index) (Sk.KFold_split_indices k (length X) indices) ->
  exists X_train X_test,
    Np.take X train_index = Ok X_train
    /\ Np.take X test_index = Ok X_test
    /\ Permutation (X_train ++ X_test) X.
Proof.
  intros Hk Hperm Hin.
  pose proof (split_train_test (length X) k indices train_index test_index Hin) as Hsp.
  assert (Hrange : forall i, In i (train_index ++ test_index) -> (i < length X)%nat).
  { intros i Hi. apply (Permutation_in _ Hsp) in Hi. unfold Np.arange in Hi.
    apply in_seq in Hi. lia. }
  destruct (take_in_range X train_index) as [Xtr [Htr Mtr]].
  { intros i Hi. apply Hrange, in_or_app. now left. }
  destruct (take_in_range X test_index) as [Xte [Hte Mte]].
  { intros i Hi. apply Hrange, in_or_app. now right. }
  exists Xtr, Xte. split; [exact Htr|]. split; [exact Hte|].
  assert (HP : Permutation (map Some (Xtr ++ Xte)) (map Some X)).
  { rewrite map_app, Mtr, Mte, <- map_app, <- map_nth_error_seq.
    apply Permutation_map, Hsp. }
  apply Permutation_sym, Permutation_map_inv in HP as [l [Hl HP]].
  apply map_Some_inj in Hl. subst l. now apply Permutation_sym.
Qed.

Lemma kfold_rows_partition_witness :
  exists X_train X_test,
    Np.take KFoldCE.y_small [2; 3]%nat = Ok X_train
    /\ Np.take KFoldCE.y_small [0; 1]%nat = Ok X_test
    /\ Permutation (X_train ++ X_test) KFoldCE.y_small.
Proof.
  apply (kfold_rows_partition KFoldCE.y_small 2 [0; 1; 2; 3]%nat).
  - lia.
  - apply Permutation_refl.
  - left. reflexivity.
Defined.

(** ** The simulation loop *)

Section Simulation.

Variable R : RandomState.
Variable replicate : Z -> rng R -> result (Qc * Qc * rng R).

Lemma simulate_extends (n : nat) (seed : Z) (b u : list Qc) (g : rng R)
      (b' u' : list Qc) (seed' : Z) (g' : rng R) :
  KFoldCE.simulate R replicate n seed b u g = Ok (b', u', seed', g') ->
  exists new_b new_u,
    b' = b ++ new_b /\ u' = u ++ new_u
    /\ length new_b = n /\ length new_u = n
    /\ seed' = (seed + Z.of_nat n)%Z.
Proof.
  revert seed b u g. induction n as [|n IH]; intros seed b u g.
  - cbn [KFoldCE.simulate]. intros [= <- <- <- <-]. exists [], [].
    rewrite !app_nil_r. repeat split; try reflexivity. lia.
  - cbn [KFoldCE.simulate].
    destruct (replicate (seed + 1)%Z g) as [[[psi upd] g1]|]; [|discriminate].
    cbn [bind]. intros H. apply IH in H as [nb [nu [-> [-> [Hb [Hu ->]]]]]].
    exists (psi :: nb), (upd :: nu). rewrite <- !app_assoc. cbn [app length].
    repeat split; try reflexivity; lia.
Qed.

Lemma simulate_add (m n : nat) (seed : Z) (b u : list Qc) (g : rng R) :
  KFoldCE.simulate R replicate (m + n) seed b u g
  = (r <- KFoldCE.simulate R replicate m seed b u g ;;
     KFoldCE.simulate R replicate n (snd (fst r)) (fst (fst (fst r)))
                      (snd (fst (fst r))) (snd r)).
Proof.
  revert seed b u g. induction m as [|m IH]; intros seed b u g.
  - reflexivity.
  - cbn [Nat.add KFoldCE.simulate].
    destruct (replicate (seed + 1)%Z g) as [[[psi upd] g1]|]; [|reflexivity].
    cbn [bind]. apply IH.
Qed.

Lemma simulate_entries (n : nat) (seed : Z) (b u : list Qc) (g : rng R)
      (b' u' : list Qc) (seed' : Z) (g' : rng R) :
  (forall s g1 g2, replicate s g1 = replicate s g2) ->
  KFoldCE.simulate R replicate n seed b u g = Ok (b', u', seed', g') ->
  forall i g0, (i < n)%nat ->
    exists g1,
      replicate (seed + 1 + Z.of_nat i)%Z g0
      = Ok (nth (length b + i) b' 0, nth (length u + i) u' 0, g1).
Proof.
  intros Hrep. revert seed b u g.
  induction n as [|n IH]; intros seed b u g Hsim i g0 Hi; [lia|].
  cbn [KFoldCE.simulate] in Hsim.
  destruct (replicate (seed + 1)%Z g) as [[[psi upd] g1]|] eqn:E; [|discriminate].
  cbn [bind] in Hsim.
  destruct i as [|i].
  - exists g1. rewrite (Hrep _ g0 g). replace (seed + 1 + Z.of_nat 0)%Z with (seed + 1)%Z by lia.
    rewrite E. apply simulate_extends in Hsim as [nb [nu [-> [-> _]]]].
    rewrite !Nat.add_0_r, <- !app_assoc.
    rewrite (app_nth2 b) by lia. rewrite (app_nth2 u) by lia.
    rewrite !Nat.sub_diag. reflexivity.
  - destruct (IH _ _ _ _ Hsim i g0 ltac:(lia)) as [g2 Hg2].
    exists g2. rewrite !length_app in Hg2. cbn [length] in Hg2.
    replace (seed + 1 + Z.of_nat (S i))%Z with (seed + 1 + 1 + Z.of_nat i)%Z by lia.
    replace (length b + S i)%nat with (length b + 1 + i)%nat by lia.
    replace (length u + S i)%nat with (length u + 1 + i)%nat by lia.
    exact Hg2.
Qed.

End Simulation.

(** A simulation loop of [n] passes that ends normally has appended
    exactly [n] estimates to [biased_psis] and to [upd_psis], has left the
    estimates recorded before untouched, and has advanced the seed counter
    by [n]. *)
Theorem simulate_records
        (R : RandomState) (replicate : Z -> rng R -> result (Qc * Qc * rng R))
        (n : nat) (seed : Z) (biased_psis upd_psis : list Qc) (g : rng R)
        (biased_psis' upd_psis' : list Qc) (seed' : Z) (g' : rng R) :
  KFoldCE.simulate R replicate n seed biased_psis upd_psis g
  = Ok (biased_psis', upd_psis', seed', g') ->
  length biased_psis' = (length biased_psis + n)%nat
  /\ length upd_psis' = (length upd_psis + n)%nat
  /\ firstn (length biased_psis) biased_psis' = biased_psis
  /\ firstn (length upd_psis) upd_psis' = upd_psis
  /\ seed' = (seed + Z.of_nat n)%Z.
Proof.
  intros H. apply simulate_extends in H as [nb [nu [-> [-> [Hb [Hu ->]]]]]].
  rewrite !length_app, Hb, Hu.
  repeat split; try reflexivity.
  - rewrite firstn_app, Nat.sub_diag, firstn_all. cbn. apply app_nil_r.
  - rewrite firstn_app, Nat.sub_diag, firstn_all. cbn. apply app_nil_r.
Qed.

Lemma simulate_records_witness :
  exists biased_psis' upd_psis' seed' g',
    KFoldCE.simulate counter_random_state
      (KFoldCE.replicate_misspecified counter_random_state KFoldCE.ols_first_column
                                      2 5 KFoldCE.beta)
      1 0%Z [] [] 0%Z
    = Ok (biased_psis', upd_psis', seed', g')
    /\ length biased_psis' = 1%nat /\ seed' = 1%Z.
Proof.
  destruct (KFoldCE.simulate counter_random_state
      (KFoldCE.replicate_misspecified counter_random_state KFoldCE.ols_first_column
                                      2 5 KFoldCE.beta)
      1 0%Z [] [] 0%Z) as [[[[b u] s] g']|e] eqn:E.
  - exists b, u, s, g'. split; [reflexivity|].
    destruct (simulate_records _ _ _ _ _ _ _ _ _ _ _ E) as [Hb [_ [_ [_ Hs]]]].
    split; [exact Hb | exact Hs].
  - vm_compute in E. discriminate E.
Defined.

(** Running the loop for [m + n] passes is running it for [m] passes and
    then for [n] more from the lists, the seed counter and the generator
    state the first run has left. *)
Theorem simulate_continues
        (R : RandomState) (replicate : Z -> rng R -> result (Qc * Qc * rng R))
        (m n : nat) (seed : Z) (biased_psis upd_psis : list Qc) (g : rng R) :
  KFoldCE.simulate R replicate (m + n) seed biased_psis upd_psis g
  = ('(b, u, s, g1) <- KFoldCE.simulate R replicate m seed biased_psis upd_psis g ;;
     KFoldCE.simulate R replicate n s b u g1).
Proof.
  rewrite simulate_add.
  destruct (KFoldCE.simulate R replicate m seed biased_psis upd_psis g)
    as [[[[b u] s] g1]|]; reflexivity.
Qed.

(** Every pair of estimates a simulation of the k-fold notebook records
    is the outcome of one replicate at its own seed, [seed + 1 + i] for
    the [i]-th pass, and that replicate returns the same pair from any
    state of the generator: the passes do not influence one another. *)
Theorem simulate_replicates_independent
        (R : RandomState) (fit : list Np.row -> list Qc -> CondMean.regressor)
        (k N : nat) (beta : list Qc) (n : nat) (seed : Z) (g : rng R)
        (biased_psis upd_psis : list Qc) (seed' : Z) (g' : rng R) :
  KFoldCE.simulate R (KFoldCE.replicate_misspecified R fit k N beta) n seed [] [] g
  = Ok (biased_psis, upd_psis, seed', g') ->
  forall i g0, (i < n)%nat ->
    exists g1,
      KFoldCE.replicate_misspecified R fit k N beta (seed + 1 + Z.of_nat i)%Z g0
      = Ok (nth i biased_psis 0, nth i upd_psis 0, g1).
Proof.
  intros H i g0 Hi.
  assert (Hrep : forall s g1 g2,
             KFoldCE.replicate_misspecified R fit k N beta s g1
             = KFoldCE.replicate_misspecified R fit k N beta s g2)
    by reflexivity.
  exact (simulate_entries R _ n seed [] [] g _ _ _ _ Hrep H i g0 Hi).
Qed.

Lemma simulate_replicates_independent_witness :
  exists b u s g' g1,
    KFoldCE.simulate counter_random_state
      (KFoldCE.replicate_misspecified counter_random_state KFoldCE.ols_first_column
                                      2 5 KFoldCE.beta)
      1 0%Z [] [] 0%Z
    = Ok (b, u, s, g')
    /\ KFoldCE.replicate_misspecified counter_random_state KFoldCE.ols_first_column
         2 5 KFoldCE.beta 1%Z 7%Z
       = Ok (nth 0 b 0, nth 0 u 0, g1).
Proof.
  destruct (KFoldCE.simulate counter_random_state
      (KFoldCE.replicate_misspecified counter_random_state KFoldCE.ols_first_column
                                      2 5 KFoldCE.beta)
      1 0%Z [] [] 0%Z) as [[[[b u] s] g']|e] eqn:E.
  - destruct (simulate_replicates_independent _ _ _ _ _ _ _ _ _ _ _ _ E 0%nat 7%Z)
      as [g1 Hg1]; [lia|].
    exists b, u, s, g', g1. split; [reflexivity | exact Hg1].
  - vm_compute in E. discriminate E.
Defined.

(** ** The generated data *)

Lemma nth_multiply (a b : list Qc) (i : nat) :
  nth i (KFoldCE.multiply a b) 0 = nth i a 0 * nth i b 0.
Proof.
  revert b i. induction a as [|ai a IH]; intros [|bi b] [|i]; cbn;
    try ring; try reflexivity.
  apply IH.
Qed.

Lemma nth_repeat_1 (N i : nat) : (i < N)%nat -> nth i (repeat 1 N) 0 = 1.
Proof.
  revert i. induction N as [|N IH]; intros [|i] Hi; cbn; try lia; try reflexivity.
  apply IH. lia.
Qed.

Lemma nth_error_add (a b : list Qc) (i : nat) (ai bi : Qc) :
  nth_error a i = Some ai -> nth_error b i = Some bi ->
  nth_error (KFoldCE.add a b) i = Some (ai + bi).
Proof.
  revert b i. induction a as [|a0 a IH]; intros [|b0 b] [|i]; cbn; try discriminate.
  - now intros [= ->] [= ->].
  - apply IH.
Qed.

Lemma concatenate_columns_row (N : nat) (cols : list (list Qc)) (i : nat) (r : Np.row) :
  nth_error (KFoldCE.concatenate_columns N cols) i = Some r ->
  (i < N)%nat /\ r = map (fun col => nth i col 0) cols.
Proof.
  unfold KFoldCE.concatenate_columns. rewrite nth_error_map, nth_error_seq.
  destruct (Nat.ltb_spec i N); cbn; [|discriminate].
  intros [= <-]. split; [assumption | reflexivity].
Qed.

Lemma full_design_row (N : nat) (X1 X2 X3 X4 : list Qc) (i : nat) (row : Np.row) :
  nth_error (KFoldCE.concatenate_columns N
               [repeat 1 N; X1; X2; X3; X4; KFoldCE.multiply X2 X3]) i = Some row ->
  (i < N)%nat
  /\ exists x1 x2 x3 x4,
       row = [1; x1; x2; x3; x4; x2 * x3]
       /\ KFoldCE.drop_ends row = [x1; x2; x3; x4].
Proof.
  intros Hrow. apply concatenate_columns_row in Hrow as [Hi ->].
  split; [assumption|]. cbn [map].
  rewrite nth_multiply, nth_repeat_1 by assumption.
  do 4 eexists. split; reflexivity.
Qed.

(** [data_gen] returns [N] rows in both designs; every row of the full
    design is the intercept 1, four covariates and the product of the
    second and third of them, and the row of the first output at the same
    place is the four covariates alone, without the constant and the
    interaction. *)
Theorem data_gen_rows (R : RandomState) (N : nat) (beta : list Qc) (seed : Z) (g : rng R)
        (X X_all : list Np.row) (y u : list Qc) (g' : rng R) :
  KFoldCE.data_gen R N beta seed g = (X, X_all, y, u, g') ->
  length X_all = N /\ length X = N
  /\ forall i row, nth_error X_all i = Some row ->
       exists x1 x2 x3 x4,
         row = [1; x1; x2; x3; x4; x2 * x3]
         /\ nth_error X i = Some [x1; x2; x3; x4].
Proof.
  unfold KFoldCE.data_gen.
  destruct (binomial R N (seed_state R seed)) as [X1 g1].
  destruct (binomial R N g1) as [X2 g2].
  destruct (binomial R N g2) as [X3 g3].
  destruct (binomial R N g3) as [X4 g4].
  destruct (randn R N g4) as [z g5].
  intros [= <- <- _ _ _].
  split; [|split].
  - unfold KFoldCE.concatenate_columns. now rewrite length_map, length_seq.
  - unfold KFoldCE.concatenate_columns. now rewrite !length_map, length_seq.
  - intros i row Hrow. rewrite nth_error_map, Hrow. cbn [option_map].
    apply full_design_row in Hrow as [_ [x1 [x2 [x3 [x4 [-> Hd]]]]]].
    exists x1, x2, x3, x4. split; [reflexivity | now rewrite Hd].
Qed.

Lemma data_gen_rows_witness :
  exists X X_all y u g',
    KFoldCE.data_gen counter_random_state 3 KFoldCE.beta 1%Z 0%Z = (X, X_all, y, u, g')
    /\ length X_all = 3%nat /\ length X = 3%nat.
Proof.
  destruct (KFoldCE.data_gen counter_random_state 3 KFoldCE.beta 1%Z 0%Z)
    as [[[[X X_all] y] u] g'] eqn:E.
  destruct (data_gen_rows _ _ _ _ _ _ _ _ _ _ E) as [H1 [H2 _]].
  exists X, X_all, y, u, g'. repeat split; assumption.
Defined.

(** The query of the estimator points at the ground truth of the
    simulation: for every generated observation whose four covariates are
    the query vector [cond_X_est], the outcome without its noise,
    [y - u], is [np.dot(cond_X_GT, beta)]; with the coefficients of the
    notebook that is [Psi_GT = 4.8]. *)
Theorem data_gen_ground_truth
        (R : RandomState) (N : nat) (beta : list Qc) (seed : Z) (g : rng R)
        (X X_all : list Np.row) (y u : list Qc) (g' : rng R) :
  KFoldCE.data_gen R N beta seed g = (X, X_all, y, u, g') ->
  length u = N ->
  (forall i, nth_error X i = Some KFoldCE.cond_X_est ->
     exists yi ui,
       nth_error y i = Some yi /\ nth_error u i = Some ui
       /\ yi - ui = Np.dot KFoldCE.cond_X_GT beta)
  /\ Report.Psi_GT = Np.dot KFoldCE.cond_X_GT KFoldCE.beta
  /\ Report.Psi_GT = Q2Qc (48 # 10).
Proof.
  intros E Hu. split; [|split; [reflexivity | apply Qc_is_canon; reflexivity]].
  intros i Hi. revert E. unfold KFoldCE.data_gen.
  destruct (binomial R N (seed_state R seed)) as [X1 g1].
  destruct (binomial R N g1) as [X2 g2].
  destruct (binomial R N g2) as [X3 g3].
  destruct (binomial R N g3) as [X4 g4].
  destruct (randn R N g4) as [z g5].
  intros [= EX EXall Ey Eu _].
  rewrite <- EX, EXall, nth_error_map in Hi.
  destruct (nth_error X_all i) as [row|] eqn:Erow; [|discriminate].
  cbn [option_map] in Hi. injection Hi as Hi.
  pose proof Erow as Hrow. rewrite <- EXall in Hrow.
  apply full_design_row in Hrow as [HiN [x1 [x2 [x3 [x4 [-> Hd]]]]]].
  rewrite Hd in Hi. injection Hi as -> -> -> ->.
  destruct (nth_error u i) as [ui|] eqn:Eui;
    [|apply nth_error_None in Eui; lia].
  exists (Np.dot [1; 1; 0; 1; 0; 0 * 1] beta + ui), ui.
  split; [|split; [reflexivity|]].
  - rewrite <- Ey. apply nth_error_add.
    + apply (map_nth_error (fun r => Np.dot r beta)). rewrite EXall. exact Erow.
    + rewrite Eu. exact Eui.
  - unfold KFoldCE.cond_X_GT. rewrite (Qcmult_0_l 1). ring.
Qed.

Lemma data_gen_ground_truth_witness :
  Report.Psi_GT = Q2Qc (48 # 10).
Proof.
  destruct (KFoldCE.data_gen counter_random_state 3 KFoldCE.beta 1%Z 0%Z)
    as [[[[X X_all] y] u] g'] eqn:E.
  refine (proj2 (proj2 (data_gen_ground_truth _ _ _ _ _ _ _ _ _ _ E _))).
  apply (f_equal (fun d => length (snd (fst d)))) in E. cbn [fst snd] in E.
  rewrite <- E. reflexivity.
Defined.

(** ** The tutorial notebook, steps 2 to 9 *)

Lemma influence_values_length
      (reg : CondMean.regressor) (cond_X : Np.row) (cats : list Np.row) (p_cats : list Qc)
      (X_test : list Np.row) (y_test all_phi : list Qc) :
  length y_test = length X_test ->
  CondMean.influence_values reg cond_X cats p_cats X_test y_test = Ok all_phi ->
  length all_phi = length X_test.
Proof.
  intros Hlen H. rewrite influence_values_map in H by assumption.
  apply map_result_length in H. rewrite H, length_combine, Hlen. lia.
Qed.

Section TutorialRun.

Variable R : RandomState.
Variable RandomForestRegressor_fit :
  list Np.row -> list Qc -> rng R -> CondMean.regressor * rng R.
Variables (X : list Np.row) (y : list Qc) (g : rng R).
Variables (reg1 reg2 : CondMean.regressor) (g1 g2 : rng R).
Variables (all_phi_ds1s all_phi_ds2s : list Qc).

Hypothesis Hlen : length y = length X.
Hypothesis Hfit1 :
  RandomForestRegressor_fit (TutorialCE.first_half X) (TutorialCE.first_half y) g
  = (reg1, g1).
Hypothesis Hphi2 :
  CondMean.influence_values reg1 TutorialCE.cond_X_est
    (fst (Np.unique (TutorialCE.first_half X)))
    (CondMean.normalize (snd (Np.unique (TutorialCE.first_half X)))
                        (length (TutorialCE.first_half X)))
    (TutorialCE.second_half X) (TutorialCE.second_half y)
  = Ok all_phi_ds2s.
Hypothesis Hfit2 :
  RandomForestRegressor_fit (TutorialCE.second_half X) (TutorialCE.second_half y) g1
  = (reg2, g2).
Hypothesis Hphi1 :
  CondMean.influence_values reg2 TutorialCE.cond_X_est
    (fst (Np.unique (TutorialCE.second_half X)))
    (CondMean.normalize (snd (Np.unique (TutorialCE.second_half X)))
                        (length (TutorialCE.second_half X)))
    (TutorialCE.first_half X) (TutorialCE.first_half y)
  = Ok all_phi_ds1s.

Lemma tutorial_estimate_unfold :
  TutorialCE.estimate R RandomForestRegressor_fit X y g
  = (s <- TutorialCE.add_broadcast all_phi_ds1s all_phi_ds2s ;;
     Ok ((reg1 TutorialCE.cond_X_est + reg2 TutorialCE.cond_X_est) / (1 + 1),
         (reg1 TutorialCE.cond_X_est + reg2 TutorialCE.cond_X_est) / (1 + 1)
         + Np.mean (map (fun v => v / (1 + 1)) s),
         g2)).
Proof.
  unfold TutorialCE.estimate. rewrite Hfit1.
  destruct (Np.unique (TutorialCE.first_half X)) as [cats1 counts1].
  cbn [fst snd] in Hphi2. rewrite Hphi2. cbn [bind]. rewrite Hfit2.
  destruct (Np.unique (TutorialCE.second_half X)) as [cats2 counts2].
  cbn [fst snd] in Hphi1. rewrite Hphi1. cbn [bind]. reflexivity.
Qed.

Lemma tutorial_phi_lengths :
  length all_phi_ds1s = (length X / 2)%nat
  /\ length all_phi_ds2s = (length X - length X / 2)%nat.
Proof.
  destruct (half_split_lengths X) as [HX1 HX2].
  destruct (half_split_lengths y) as [Hy1 Hy2].
  split.
  - rewrite (influence_values_length _ _ _ _ _ _ _ ltac:(now rewrite Hy1, HX1, Hlen) Hphi1).
    exact HX1.
  - rewrite (influence_values_length _ _ _ _ _ _ _ ltac:(now rewrite Hy2, HX2, Hlen) Hphi2).
    exact HX2.
Qed.

End TutorialRun.

(** On a sample of even size, when both influence loops succeed, the
    tutorial returns the mean of the two forests' predictions at the query
    vector and, as updated estimate, that mean plus the mean of the two
    halves' average influence values. *)
Theorem tutorial_estimate_even
        (R : RandomState)
        (RandomForestRegressor_fit :
           list Np.row -> list Qc -> rng R -> CondMean.regressor * rng R)
        (X : list Np.row) (y : list Qc) (g : rng R)
        (reg1 reg2 : CondMean.regressor) (g1 g2 : rng R)
        (all_phi_ds1s all_phi_ds2s : list Qc) :
  length y = length X ->
  Nat.even (length X) = true ->
  RandomForestRegressor_fit (TutorialCE.first_half X) (TutorialCE.first_half y) g
  = (reg1, g1) ->
  CondMean.influence_values reg1 TutorialCE.cond_X_est
    (fst (Np.unique (TutorialCE.first_half X)))
    (CondMean.normalize (snd (Np.unique (TutorialCE.first_half X)))
                        (length (TutorialCE.first_half X)))
    (TutorialCE.second_half X) (TutorialCE.second_half y)
  = Ok all_phi_ds2s ->
  RandomForestRegressor_fit (TutorialCE.second_half X) (TutorialCE.second_half y) g1
  = (reg2, g2) ->
  CondMean.influence_values reg2 TutorialCE.cond_X_est
    (fst (Np.unique (TutorialCE.second_half X)))
    (CondMean.normalize (snd (Np.unique (TutorialCE.second_half X)))
                        (length (TutorialCE.second_half X)))
    (TutorialCE.first_half X) (TutorialCE.first_half y)
  = Ok all_phi_ds1s ->
  TutorialCE.estimate R RandomForestRegressor_fit X y g
  = Ok ((reg1 TutorialCE.cond_X_est + reg2 TutorialCE.cond_X_est) / (1 + 1),
        (reg1 TutorialCE.cond_X_est + reg2 TutorialCE.cond_X_est) / (1 + 1)
        + (Np.mean all_phi_ds1s + Np.mean all_phi_ds2s) / (1 + 1),
        g2).
Proof.
  intros Hlen Heven Hfit1 Hphi2 Hfit2 Hphi1.
  rewrite (tutorial_estimate_unfold R _ X y g reg1 reg2 g1 g2 _ _
             Hfit1 Hphi2 Hfit2 Hphi1).
  destruct (tutorial_phi_lengths X y reg1 reg2 _ _ Hlen Hphi2 Hphi1) as [H1 H2].
  assert (Heq : length all_phi_ds1s = length all_phi_ds2s).
  { rewrite H1, H2. apply Nat.even_spec in Heven as [m Hm]. rewrite Hm.
    replace (2 * m)%nat with (m * 2)%nat by lia. rewrite Nat.div_mul by lia. lia. }
  destruct (tutorial_phi_est_averages_both_folds _ _ Heq) as [s [Hs Hmean]].
  rewrite Hs. cbn [bind]. now rewrite Hmean.
Qed.

(** On a sample of odd size, five observations or more, the two arrays
    of influence values have different lengths, neither of them 1: even
    when both influence loops succeed, step 7 of the tutorial,
    [(all_phi_ds1s + all_phi_ds2s)/2], raises [ValueError]. *)
Theorem tutorial_estimate_odd
        (R : RandomState)
        (RandomForestRegressor_fit :
           list Np.row -> list Qc -> rng R -> CondMean.regressor * rng R)
        (X : list Np.row) (y : list Qc) (g : rng R)
        (reg1 reg2 : CondMean.regressor) (g1 g2 : rng R)
        (all_phi_ds1s all_phi_ds2s : list Qc) :
  length y = length X ->
  Nat.odd (length X) = true ->
  (5 <= length X)%nat ->
  RandomForestRegressor_fit (TutorialCE.first_half X) (TutorialCE.first_half y) g
  = (reg1, g1) ->
  CondMean.influence_values reg1 TutorialCE.cond_X_est
    (fst (Np.unique (TutorialCE.first_half X)))
    (CondMean.normalize (snd (Np.unique (TutorialCE.first_half X)))
                        (length (TutorialCE.first_half X)))
    (TutorialCE.second_half X) (TutorialCE.second_half y)
  = Ok all_phi_ds2s ->
  RandomForestRegressor_fit (TutorialCE.second_half X) (TutorialCE.second_half y) g1
  = (reg2, g2) ->
  CondMean.influence_values reg2 TutorialCE.cond_X_est
    (fst (Np.unique (TutorialCE.second_half X)))
    (CondMean.normalize (snd (Np.unique (TutorialCE.second_half X)))
                        (length (TutorialCE.second_half X)))
    (TutorialCE.first_half X) (TutorialCE.first_half y)
  = Ok all_phi_ds1s ->
  TutorialCE.estimate R RandomForestRegressor_fit X y g = Raise ValueError.
Proof.
  intros Hlen Hodd Hfive Hfit1 Hphi2 Hfit2 Hphi1.
  rewrite (tutorial_estimate_unfold R _ X y g reg1 reg2 g1 g2 _ _
             Hfit1 Hphi2 Hfit2 Hphi1).
  destruct (tutorial_phi_lengths X y reg1 reg2 _ _ Hlen Hphi2 Hphi1) as [H1 H2].
  apply Nat.odd_spec in Hodd as [m Hm].
  assert (Hdiv : (length X / 2 = m)%nat).
  { rewrite Hm. replace (2 * m + 1)%nat with (1 + m * 2)%nat by lia.
    rewrite Nat.div_add by lia. reflexivity. }
  rewrite Hdiv in H1, H2.
  unfold TutorialCE.add_broadcast.
  destruct (Nat.eqb_spec (length all_phi_ds1s) (length all_phi_ds2s)) as [E|_]; [lia|].
  destruct all_phi_ds1s as [|a0 [|a1 l1]]; cbn [length] in H1; try lia.
  destruct all_phi_ds2s as [|b0 [|b1 l2]]; cbn [length] in H2; try lia.
  reflexivity.
Qed.

Lemma tutorial_estimate_even_witness :
  exists r,
    TutorialCE.estimate counter_random_state line_forest
                        KFoldCE.X_small KFoldCE.y_small 0%Z
    = Ok r.
Proof.
  destruct (CondMean.influence_values
              (KFoldCE.ols_first_column (TutorialCE.first_half KFoldCE.X_small)
                                        (TutorialCE.first_half KFoldCE.y_small))
              TutorialCE.cond_X_est
              (fst (Np.unique (TutorialCE.first_half KFoldCE.X_small)))
              (CondMean.normalize (snd (Np.unique (TutorialCE.first_half KFoldCE.X_small)))
                                  (length (TutorialCE.first_half KFoldCE.X_small)))
              (TutorialCE.second_half KFoldCE.X_small)
              (TutorialCE.second_half KFoldCE.y_small)) as [a2|e] eqn:E2;
    [|vm_compute in E2; discriminate E2].
  destruct (CondMean.influence_values
              (KFoldCE.ols_first_column (TutorialCE.second_half KFoldCE.X_small)
                                        (TutorialCE.second_half KFoldCE.y_small))
              TutorialCE.cond_X_est
              (fst (Np.unique (TutorialCE.second_half KFoldCE.X_small)))
              (CondMean.normalize (snd (Np.unique (TutorialCE.second_half KFoldCE.X_small)))
                                  (length (TutorialCE.second_half KFoldCE.X_small)))
              (TutorialCE.first_half KFoldCE.X_small)
              (TutorialCE.first_half KFoldCE.y_small)) as [a1|e] eqn:E1;
    [|vm_compute in E1; discriminate E1].
  eexists.
  exact (tutorial_estimate_even counter_random_state line_forest
           KFoldCE.X_small KFoldCE.y_small 0%Z _ _ 1%Z 2%Z a1 a2
           eq_refl eq_refl eq_refl E2 eq_refl E1).
Defined.

Lemma tutorial_estimate_odd_witness :
  TutorialCE.estimate counter_random_state line_forest X_five y_five 0%Z
  = Raise ValueError.
Proof.
  destruct (CondMean.influence_values
              (KFoldCE.ols_first_column (TutorialCE.first_half X_five)
                                        (TutorialCE.first_half y_five))
              TutorialCE.cond_X_est
              (fst (Np.unique (TutorialCE.first_half X_five)))
              (CondMean.normalize (snd (Np.unique (TutorialCE.first_half X_five)))
                                  (length (TutorialCE.first_half X_five)))
              (TutorialCE.second_half X_five)
              (TutorialCE.second_half y_five)) as [a2|e] eqn:E2;
    [|vm_compute in E2; discriminate E2].
  destruct (CondMean.influence_values
              (KFoldCE.ols_first_column (TutorialCE.second_half X_five)
                                        (TutorialCE.second_half y_five))
              TutorialCE.cond_X_est
              (fst (Np.unique (TutorialCE.second_half X_five)))
              (CondMean.normalize (snd (Np.unique (TutorialCE.second_half X_five)))
                                  (length (TutorialCE.second_half X_five)))
              (TutorialCE.first_half X_five)
              (TutorialCE.first_half y_five)) as [a1|e] eqn:E1;
    [|vm_compute in E1; discriminate E1].
  apply (tutorial_estimate_odd counter_random_state line_forest
           X_five y_five 0%Z
           (KFoldCE.ols_first_column (TutorialCE.first_half X_five)
                                     (TutorialCE.first_half y_five))
           (KFoldCE.ols_first_column (TutorialCE.second_half X_five)
                                     (TutorialCE.second_half y_five))
           1%Z 2%Z a1 a2
           eq_refl eq_refl); [cbn; lia | reflexivity | exact E2 | reflexivity | exact E1].
Defined.

(** ** The entropy notebook: what the one-step estimate amounts to *)

Lemma sum_p_nu_prime (ln : Qc -> Qc) (dx : Qc) (p : list Qc) :
  Np.sum (map (fun a => a * Entropy.nu_prime ln dx a) p)
  = Np.sum (map (fun a => - a * ln (a / dx)) p) - Np.sum p.
Proof.
  unfold Entropy.nu_prime.
  induction p as [|a p IH]; unfold Np.sum in *; cbn [map fold_right].
  - ring.
  - rewrite IH. ring.
Qed.

Section EntropyOneStep.

Variables ln exp : Qc -> Qc.
Variable KernelDensity_fit : list Qc -> (Qc -> Qc).
Variables (x : list Qc) (dx : Qc).
Hypothesis Hdx : dx <> 0.
Hypothesis Hpos : forall r, exp (KernelDensity_fit (TutorialCE.first_half x) r) <> 0.

Lemma C_ds1_closed :
  Entropy.C_ds1 ln exp KernelDensity_fit x dx
  = Entropy.est_ds1 ln exp KernelDensity_fit x dx
    - Np.sum (Entropy.p_r_ds1 exp KernelDensity_fit x dx).
Proof.
  unfold Entropy.C_ds1, Entropy.nu_pr_p_ds1, Entropy.est_ds1.
  rewrite grad_data_nu, multiply_map, sum_p_nu_prime, entropy_sum.
  - reflexivity.
  - exact Hdx.
  - unfold Entropy.p_r_ds1, Entropy.kde_ds1, Entropy.x1.
    now apply density_nonzero.
Qed.

End EntropyOneStep.

(** For the first split, plug-in estimate plus correction is [B] plus
    the mass of the grid density: the entropy integral cancels against
    [C], and what is left is the held-out average of [nu'] and the sum of
    [p_r_ds1] (which the notebook prints as a check that it is close to
    1). *)
Theorem one_step_estimate_ds1
        (ln exp : Qc -> Qc) (KernelDensity_fit : list Qc -> (Qc -> Qc))
        (x : list Qc) (dx : Qc) :
  dx <> 0 ->
  (forall r, exp (KernelDensity_fit (TutorialCE.first_half x) r) <> 0) ->
  Entropy.est_ds1 ln exp KernelDensity_fit x dx
  + Entropy.psi_ds1 ln exp KernelDensity_fit x dx
  = Entropy.B_ds1 ln exp KernelDensity_fit x dx
    + Np.sum (Entropy.p_r_ds1 exp KernelDensity_fit x dx).
Proof.
  intros Hdx Hpos. unfold Entropy.psi_ds1.
  rewrite (C_ds1_closed ln exp KernelDensity_fit x dx Hdx Hpos).
  unfold Entropy.A_ds1. rewrite backward_phi. unfold Entropy.phi_prime. ring.
Qed.

Lemma one_step_estimate_ds1_witness :
  Entropy.est_ds1 id_fn id_fn constant_kde [1; 1 + 1] 1
  + Entropy.psi_ds1 id_fn id_fn constant_kde [1; 1 + 1] 1
  = Entropy.B_ds1 id_fn id_fn constant_kde [1; 1 + 1] 1
    + Np.sum (Entropy.p_r_ds1 id_fn constant_kde [1; 1 + 1] 1).
Proof.
  apply (one_step_estimate_ds1 id_fn id_fn constant_kde [1; 1 + 1] 1).
  - intros H. discriminate H.
  - intros r H. discriminate H.
Defined.

(** The updated estimate the notebook prints is the mass of the grid
    density of the first split plus the mean of the two held-out averages
    [B_ds1] and [B_ds2]: both plug-in values and both [C] terms are computed
    from [kde_ds1] and cancel. *)
Theorem updated_est_closed_form
        (ln exp : Qc -> Qc) (KernelDensity_fit : list Qc -> (Qc -> Qc))
        (x : list Qc) (dx : Qc) :
  dx <> 0 ->
  (forall r, exp (KernelDensity_fit (TutorialCE.first_half x) r) <> 0) ->
  Entropy.updated_est ln exp KernelDensity_fit x dx
  = Np.sum (Entropy.p_r_ds1 exp KernelDensity_fit x dx)
    + (Entropy.B_ds1 ln exp KernelDensity_fit x dx
       + Entropy.B_ds2 ln exp KernelDensity_fit x dx) / (1 + 1).
Proof.
  intros Hdx Hpos.
  unfold Entropy.updated_est, Entropy.est, Entropy.psi, Entropy.psi_ds1, Entropy.psi_ds2.
  change (Entropy.C_ds2 ln exp KernelDensity_fit x dx)
    with (Entropy.C_ds1 ln exp KernelDensity_fit x dx).
  rewrite (C_ds1_closed ln exp KernelDensity_fit x dx Hdx Hpos).
  unfold Entropy.A_ds1, Entropy.A_ds2. rewrite !backward_phi.
  unfold Entropy.phi_prime.
  change (Entropy.est_ds2 ln exp KernelDensity_fit x dx)
    with (Entropy.est_ds1 ln exp KernelDensity_fit x dx).
  field. intros H. discriminate H.
Qed.

Lemma updated_est_closed_form_witness :
  Entropy.updated_est id_fn id_fn constant_kde [1; 1 + 1] 1
  = Np.sum (Entropy.p_r_ds1 id_fn constant_kde [1; 1 + 1] 1)
    + (Entropy.B_ds1 id_fn id_fn constant_kde [1; 1 + 1] 1
       + Entropy.B_ds2 id_fn id_fn constant_kde [1; 1 + 1] 1) / (1 + 1).
Proof.
  apply (updated_est_closed_form id_fn id_fn constant_kde [1; 1 + 1] 1).
  - intros H. discriminate H.
  - intros r H. discriminate H.
Defined.

(** On a tensor without zero entries, autograd's gradient of [nu] is the
    analytic derivative [- log(a/dx) - 1] of [nu(a) = - a log(a/dx)],
    entry by entry. *)
Theorem nu_gradient (ln : Qc -> Qc) (dx : Qc) (p : list Qc) :
  dx <> 0 ->
  Forall (fun a => a <> 0) p ->
  Entropy.nu ln p dx = map (fun a => - a * ln (a / dx)) p
  /\ Entropy.grad_data ln (Entropy.nu_graph dx) p
     = map (fun a => - ln (a / dx) - 1) p.
Proof.
  intros Hdx Hp. split; [reflexivity|].
  unfold Entropy.grad_data. apply map_ext_in. intros a Ha.
  rewrite Forall_forall in Hp.
  cbn [Entropy.nu_graph Entropy.backward Entropy.forward].
  generalize (ln (a / dx)). intros l. field. split; [exact Hdx | exact (Hp a Ha)].
Qed.

Lemma nu_gradient_witness :
  Entropy.grad_data id_fn (Entropy.nu_graph (1 + 1)) [1; 1 + 1]
  = map (fun a => - id_fn (a / (1 + 1)) - 1) [1; 1 + 1].
Proof.
  apply (nu_gradient id_fn (1 + 1) [1; 1 + 1]).
  - intros H. discriminate H.
  - repeat constructor; intros H; discriminate H.
Defined.

(** ** The grid of the density *)





(** ** The reported figures *)

Lemma sum_errors (psis : list Qc) (Psi_GT : Qc) :
  Np.sum (Report.errors psis Psi_GT)
  = (Np.sum psis - Np.of_nat (length psis) * Psi_GT) / Psi_GT * Report.hundred.
Proof.
  unfold Report.errors.
  induction psis as [|v psis IH]; unfold Np.sum in *; cbn [map fold_right length].
  - rewrite of_nat_0. unfold Qcdiv. ring.
  - rewrite IH, of_nat_S. unfold Qcdiv. ring.
Qed.

Lemma mean_errors_eq (psis : list Qc) (Psi_GT : Qc) :
  psis <> [] ->
  Np.mean (Report.errors psis Psi_GT) = Report.relative_bias psis Psi_GT.
Proof.
  intros Hne. unfold Np.mean, Report.relative_bias.
  rewrite sum_errors. unfold Report.errors. rewrite length_map.
  assert (Hn : Np.of_nat (length psis) <> 0).
  { apply of_nat_neq_0. destruct psis; [congruence | simpl; lia]. }
  unfold Np.mean. generalize dependent (Np.of_nat (length psis)). intros n Hn.
  unfold Qcdiv.
  replace (Np.sum psis * / n - Psi_GT)
    with ((Np.sum psis - n * Psi_GT) * / n) by (field; exact Hn).
  ring.
Qed.

(** The mean of the replicates' relative errors is the relative bias of
    their mean: the two cells of the report agree on the signed figure
    (they differ on the absolute ones only). *)
Theorem mean_errors_is_relative_bias (psis : list Qc) (Psi_GT : Qc) :
  psis <> [] ->
  Np.mean (Report.errors psis Psi_GT) = Report.relative_bias psis Psi_GT.
Proof.
  exact (mean_errors_eq psis Psi_GT).
Qed.

Lemma mean_errors_is_relative_bias_witness :
  Np.mean (Report.errors [1; 1 + 1 + 1] (1 + 1))
  = Report.relative_bias [1; 1 + 1 + 1] (1 + 1).
Proof.
  apply (mean_errors_is_relative_bias [1; 1 + 1 + 1] (1 + 1)). discriminate.
Defined.

Lemma Qcabs_sum (l : list Qc) :
  Qcabs.Qcabs (Np.sum l) <= Np.sum (map Qcabs.Qcabs l).
Proof.
  induction l as [|v l IH]; unfold Np.sum in *; cbn [map fold_right].
  - apply Qcabs.Qcle_Qcabs.
  - eapply Qcle_trans; [apply Qcabs.Qcabs_triangle|].
    apply Qcplus_le_compat; [apply Qcle_refl | exact IH].
Qed.

(** With a positive ground truth, the absolute relative bias of the mean
    estimate is at most the mean of the replicates' absolute relative
    errors: taking [np.abs] before or after averaging does not give the
    same figure, and the first is never the larger. *)
Theorem abs_bias_le_mean_abs_errors (psis : list Qc) (Psi_GT : Qc) :
  psis <> [] ->
  0 < Psi_GT ->
  Report.abs_relative_bias psis Psi_GT
  <= Np.mean (map Qcabs.Qcabs (Report.errors psis Psi_GT)).
Proof.
  intros Hne Hgt.
  assert (Hrb : Report.abs_relative_bias psis Psi_GT
                = Qcabs.Qcabs (Report.relative_bias psis Psi_GT)).
  { unfold Report.abs_relative_bias, Report.relative_bias, Qcdiv.
    rewrite !Qcabs.Qcabs_Qcmult.
    rewrite (Qcabs.Qcabs_pos (/ Psi_GT)) by (apply Qclt_le_weak, Qcinv_pos, Hgt).
    rewrite (Qcabs.Qcabs_pos Report.hundred) by discriminate.
    reflexivity. }
  rewrite Hrb, <- (mean_errors_eq psis Psi_GT Hne).
  unfold Np.mean. rewrite length_map.
  assert (Hn : 0 < Np.of_nat (length (Report.errors psis Psi_GT))).
  { apply of_nat_pos. unfold Report.errors. rewrite length_map.
    destruct psis; [congruence | simpl; lia]. }
  unfold Qcdiv. rewrite Qcabs.Qcabs_Qcmult.
  rewrite (Qcabs.Qcabs_pos (/ _)) by (apply Qclt_le_weak, Qcinv_pos, Hn).
  apply Qcmult_le_compat_r; [apply Qcabs_sum|].
  apply Qclt_le_weak, Qcinv_pos, Hn.
Qed.

Lemma abs_bias_le_mean_abs_errors_witness :
  Report.abs_relative_bias [1; 1 + 1 + 1] (1 + 1)
  <= Np.mean (map Qcabs.Qcabs (Report.errors [1; 1 + 1 + 1] (1 + 1))).
Proof.
  apply (abs_bias_le_mean_abs_errors [1; 1 + 1 + 1] (1 + 1)).
  - discriminate.
  - reflexivity.
Defined.

Lemma psi_ds1_correct_witness :
  Entropy.psi_ds1 id_fn id_fn constant_kde [1; 1 + 1] 1
  = Entropy.spec_correction id_fn id_fn constant_kde 1
      (TutorialCE.first_half [1; 1 + 1]) (TutorialCE.second_half [1; 1 + 1]).
Proof.
  apply (psi_ds1_correct id_fn id_fn constant_kde [1; 1 + 1] 1).
  - intros H. discriminate H.
  - intros r H. discriminate H.
Defined.
